(** * Token and Currency entities of the SDK (src/entities/token.ts)

    A shallow embedding of the [Token] class, of [currencyEquals] and of
    the [WETH] table.  JavaScript objects are compared by reference
    ([this === other], [currencyA === currencyB]), so objects live in a
    store and a value of type [Currency] or [Token] is a location in it. *)

From Stdlib Require Import ZArith String Ascii List Bool Lia.
From stdpp Require Import base decidable option list strings gmap.

Local Open Scope Z_scope.

(** ** Errors and results *)

(** [InvariantFailed m] is the exception thrown by [invariant(false, m)]
    of tiny-invariant.  [InvalidAddress] and [InvalidDecimals] are the
    conditions of the address validator and of the [Currency] constructor,
    whose code is in other modules.  [TypeError] marks a location that
    does not hold an object of the class the TypeScript signature asks
    for; well-typed callers never produce it. *)
Inductive error : Type :=
| InvariantFailed (message : string)
| InvalidAddress
| InvalidDecimals
| TypeError.

Inductive result (A : Type) : Type :=
| Ok (a : A)
| Err (e : error).
Arguments Ok {A} a.
Arguments Err {A} e.

Definition bind {A B : Type} (r : result A) (k : A -> result B) : result B :=
  match r with
  | Ok a => k a
  | Err e => Err e
  end.

Notation "'do' x <- e ; k" := (bind e (fun x => k))
  (at level 10, x name, e at level 100, k at level 200, only parsing).
Notation "e ;; k" := (bind e (fun _ => k))
  (at level 100, k at level 200, right associativity, only parsing).

(** [invariant(condition, message)] *)
Definition invariant (condition : bool) (message : string) : result unit :=
  if condition then Ok tt else Err (InvariantFailed message).

(** The names the specification gives to the failed invariants. *)
Definition InconsistentTokenMetadata (e : error) : Prop :=
  e = InvariantFailed "DECIMALS" \/ e = InvariantFailed "SYMBOL" \/
  e = InvariantFailed "NAME".
Definition CrossChainComparison : error := InvariantFailed "CHAIN_IDS".
Definition IdenticalAddress : error := InvariantFailed "ADDRESSES".

(** ** Data *)

(** The members of the [ChainId] enum (constants) that token.ts refers to:
    an enumeration of pairwise different chain identifiers, compared with
    [===]. *)
Inductive ChainId : Type :=
| MAINNET | ROPSTEN | RINKEBY | GÖRLI | KOVAN | BSC | CHAPEL | MATIC
| MUMBAI | EVMOSTEST | EVMOS | CELO | CELOALFAJORES | ZKSYNCTEST | ZKSYNC
| SCROLLGOERLITEST | SCROLLSEPOLIATEST | SCROLL.

#[global] Instance ChainId_eq_dec : EqDecision ChainId.
Proof. solve_decision. Defined.

Definition ChainId_index (c : ChainId) : nat :=
  match c with
  | MAINNET => 0 | ROPSTEN => 1 | RINKEBY => 2 | GÖRLI => 3 | KOVAN => 4
  | BSC => 5 | CHAPEL => 6 | MATIC => 7 | MUMBAI => 8 | EVMOSTEST => 9
  | EVMOS => 10 | CELO => 11 | CELOALFAJORES => 12 | ZKSYNCTEST => 13
  | ZKSYNC => 14 | SCROLLGOERLITEST => 15 | SCROLLSEPOLIATEST => 16
  | SCROLL => 17
  end%nat.

Definition ChainId_of_index (n : nat) : ChainId :=
  match n with
  | 0 => MAINNET | 1 => ROPSTEN | 2 => RINKEBY | 3 => GÖRLI | 4 => KOVAN
  | 5 => BSC | 6 => CHAPEL | 7 => MATIC | 8 => MUMBAI | 9 => EVMOSTEST
  | 10 => EVMOS | 11 => CELO | 12 => CELOALFAJORES | 13 => ZKSYNCTEST
  | 14 => ZKSYNC | 15 => SCROLLGOERLITEST | 16 => SCROLLSEPOLIATEST
  | _ => SCROLL
  end%nat.

#[global] Instance ChainId_countable : Countable ChainId.
Proof.
  apply (inj_countable' ChainId_index ChainId_of_index).
  intros []; reflexivity.
Defined.

(** The fields of [Currency]: [decimals: number], [symbol?: string],
    [name?: string]; an omitted optional argument is [None].  The
    constructor accepts integer decimals only, so the field is an
    integer. *)
Record Currency : Type := mkCurrency {
  decimals : Z;
  symbol : option string;
  name : option string
}.

(** [Token extends Currency], with the two fields it adds. *)
Record Token : Type := mkToken {
  super :> Currency;
  chainId : ChainId;
  address : string
}.

(** An object of the store is an instance of [Token], or an instance of
    [Currency] that is not a [Token] (a native currency). *)
Inductive object : Type :=
| OCurrency (c : Currency)
| OToken (t : Token).

Definition loc : Type := nat.
Definition heap : Type := list object.

(** [x instanceof Token] *)
Definition instanceofToken (h : heap) (x : loc) : bool :=
  match h !! x with
  | Some (OToken _) => true
  | _ => false
  end.

(** Reading the fields of a value of static type [Token]. *)
Definition getToken (h : heap) (x : loc) : result Token :=
  match h !! x with
  | Some (OToken t) => Ok t
  | _ => Err TypeError
  end.

(** JavaScript truthiness of an optional string: [undefined] and the empty
    string are falsy. *)
Definition truthy (s : option string) : bool :=
  match s with
  | Some s => negb (String.eqb s "")
  | None => false
  end.

(** [String.prototype.toLowerCase] on strings of ASCII characters, which
    is what addresses are. *)
Definition lower_ascii (c : ascii) : ascii :=
  let n := N_of_ascii c in
  if ((65 <=? n) && (n <=? 90))%N then ascii_of_N (n + 32) else c.

Fixpoint toLowerCase (s : string) : string :=
  match s with
  | EmptyString => EmptyString
  | String c s' => String (lower_ascii c) (toLowerCase s')
  end.

(** ** Token.equals *)

Definition equals (h : heap) (this other : loc) : result bool :=
  if bool_decide (this = other) then Ok true
  else
    do t <- getToken h this;
    do u <- getToken h other;
    let equivalent :=
      bool_decide (chainId t = chainId u) &&
      bool_decide (address t = address u) in
    (if equivalent then
       invariant (bool_decide (decimals t = decimals u)) "DECIMALS" ;;
       (if truthy (symbol t) && truthy (symbol u)
        then invariant (bool_decide (symbol t = symbol u)) "SYMBOL"
        else Ok tt) ;;
       (if truthy (name t) && truthy (name u)
        then invariant (bool_decide (name t = name u)) "NAME"
        else Ok tt)
     else Ok tt) ;;
    Ok equivalent.

(** ** Token.sortsBefore *)

Definition sortsBefore (h : heap) (this other : loc) : result bool :=
  do t <- getToken h this;
  do u <- getToken h other;
  invariant (bool_decide (chainId t = chainId u)) "CHAIN_IDS" ;;
  invariant (negb (bool_decide (address t = address u))) "ADDRESSES" ;;
  Ok (String.ltb (toLowerCase (address t)) (toLowerCase (address u))).

(** ** currencyEquals *)

Definition currencyEquals (h : heap) (currencyA currencyB : loc) : result bool :=
  if instanceofToken h currencyA && instanceofToken h currencyB then
    equals h currencyA currencyB
  else if instanceofToken h currencyA then Ok false
  else if instanceofToken h currencyB then Ok false
  else Ok (bool_decide (currencyA = currencyB)).

(** ** Addresses *)

Definition isHexDigit (c : ascii) : bool :=
  let n := N_of_ascii c in
  ((48 <=? n) && (n <=? 57) || (97 <=? n) && (n <=? 102) ||
   (65 <=? n) && (n <=? 70))%N.

Fixpoint allHexDigits (s : string) : bool :=
  match s with
  | EmptyString => true
  | String c s' => isHexDigit c && allHexDigits s'
  end.

(** Modelled from the spec: the syntax check of [validateAndParseAddress]
    (utils, not in token.ts): a fixed-length hexadecimal string, the
    prefix [0x] followed by 40 hexadecimal digits. *)
Definition isAddress (s : string) : bool :=
  match s with
  | String c0 (String c1 digits) =>
      Ascii.eqb c0 "0" && Ascii.eqb c1 "x" &&
      Nat.eqb (String.length digits) 40 && allHexDigits digits
  | _ => false
  end.

(** What the specification calls a malformed address string: of the wrong
    length, or with a character after the prefix that is not a hexadecimal
    digit. *)
Definition wrongLength (s : string) : Prop := String.length s <> 42%nat.
Definition nonHexCharacter (s : string) : Prop :=
  exists (i : nat) (c : ascii),
    (2 <= i)%nat /\ String.get i s = Some c /\ isHexDigit c = false.
Definition malformed (s : string) : Prop := wrongLength s \/ nonHexCharacter s.

(** State and errors: a computation that may allocate objects. *)
Definition M (A : Type) : Type := heap -> result (A * heap).

Definition ret {A : Type} (a : A) : M A := fun h => Ok (a, h).

Definition bindM {A B : Type} (m : M A) (k : A -> M B) : M B :=
  fun h => match m h with
           | Ok (a, h') => k a h'
           | Err e => Err e
           end.

(** [new C(...)]: the object is stored at a fresh location. *)
Definition alloc (o : object) : M loc := fun h => Ok (length h, h ++ [o]).

(** An object literal [{ [k1]: e1, [k2]: e2, ... }]: the values are
    evaluated and the properties defined in the order they are written. *)
Fixpoint objectLiteral {K : Type} `{Countable K} {V : Type}
    (properties : list (K * M V)) (o : gmap K V) : M (gmap K V) :=
  match properties with
  | [] => ret o
  | (k, e) :: rest => bindM e (fun v => objectLiteral rest (<[k:=v]> o))
  end.

Section Construction.

(** The letter casing of the canonical form of an address (for instance
    the mixed-case checksum of the address family); the validator applies
    it to the lower-cased input.  The specification leaves the rule open,
    so it is a parameter. *)
Variable checksum : string -> string.

(** Modelled from the spec: [validateAndParseAddress] of utils, which is
    not in token.ts: "given a string, return a normalized canonical
    representation of a chain address, or fail with an InvalidAddress
    condition if the string is not a syntactically valid address"; the
    validator "only normalizes casing/format". *)
Definition validateAndParseAddress (address : string) : result string :=
  if isAddress address then Ok (checksum (toLowerCase address))
  else Err InvalidAddress.

(** Modelled from the spec: the constructor of [Currency] (currency.ts):
    "constructed with decimals (required) and optional symbol/name.
    Fails with an InvalidDecimals condition if decimals is outside the
    permitted range", the range being 0-255. *)
Definition Currency_constructor (decimals : Z) (symbol name : option string)
  : result Currency :=
  if (0 <=? decimals) && (decimals <=? 255) then
    Ok (mkCurrency decimals symbol name)
  else Err InvalidDecimals.

(** [new Token(chainId, address, decimals, symbol, name)]: [super(...)]
    runs first, then the address is validated. *)
Definition Token_new (chainId : ChainId) (address : string) (decimals : Z)
    (symbol name : option string) : M loc :=
  fun h =>
    do c <- Currency_constructor decimals symbol name;
    do a <- validateAndParseAddress address;
    alloc (OToken (mkToken c chainId a)) h.

(** [t] is the token that a call [new Token(c, a, d, s, n)] stored. *)
Definition constructedFrom (c : ChainId) (a : string) (d : Z)
    (s n : option string) (t : Token) : Prop :=
  exists h l h', Token_new c a d s n h = Ok (l, h') /\ h' !! l = Some (OToken t).

(** A token is constructed when some call of the constructor stored it. *)
Definition constructed (t : Token) : Prop :=
  exists c a d s n, constructedFrom c a d s n t.

(** The [WETH] table. *)
Definition WETH : M (gmap ChainId loc) :=
  objectLiteral [
    (MAINNET, Token_new MAINNET "0xC02aaA39b223FE8D0A0e5C4F27eAD9083C756Cc2"
                18 (Some "WETH") (Some "Wrapped Ether"));
    (ROPSTEN, Token_new ROPSTEN "0xc778417E063141139Fce010982780140Aa0cD5Ab"
                18 (Some "WETH") (Some "Wrapped Ether"));
    (RINKEBY, Token_new RINKEBY "0xc778417E063141139Fce010982780140Aa0cD5Ab"
                18 (Some "WETH") (Some "Wrapped Ether"));
    (GÖRLI, Token_new GÖRLI "0xB4FBF271143F4FBf7B91A5ded31805e42b2208d6"
                18 (Some "WETH") (Some "Wrapped Ether"));
    (KOVAN, Token_new KOVAN "0xd0A1E359811322d97991E03f863a0C30C2cF029C"
                18 (Some "WETH") (Some "Wrapped Ether"));
    (BSC, Token_new BSC "0xbb4CdB9CBd36B01bD1cBaEBF2De08d9173bc095c"
                18 (Some "WBNB") (Some "Wrapped BNB"));
    (CHAPEL, Token_new CHAPEL "0xaE8E19eFB41e7b96815649A6a60785e1fbA84C1e"
                18 (Some "WBNB") (Some "Wrapped BNB"));
    (MATIC, Token_new MATIC "0x0d500B1d8E8eF31E21C99d1Db9A6444d3ADf1270"
                18 (Some "WMATIC") (Some "Wrapped Matic"));
    (MUMBAI, Token_new MUMBAI "0x9c3C9283D3e44854697Cd22D3Faa240Cfb032889"
                18 (Some "WMATIC") (Some "Wrapped Matic"));
    (EVMOSTEST, Token_new EVMOSTEST "0x42CeDD53a09dCd6cd9482d9a6B75C8fdB2bA5132"
                18 (Some "WTEVMOS") (Some "Wrapped TEVMOS"));
    (EVMOS, Token_new EVMOS "0xd4949664cd82660aae99bedc034a0dea8a0bd517"
                18 (Some "WEVMOS") (Some "Wrapped EVMOS"));
    (CELO, Token_new CELO "0xe9eCec2cfA95D7df0644B6c8BaDD3BC1c3Cf39BA"
                18 (Some "WETH") (Some "Wrapped Ether"));
    (CELOALFAJORES,
     Token_new CELOALFAJORES "0xC8F2E555951a1eDb610b5bEBa530F4130E5d94F9"
                18 (Some "WETH") (Some "Wrapped Ether"));
    (ZKSYNCTEST,
     Token_new ZKSYNCTEST "0xa1EA0B2354F5A344110af2b6AD68e75545009a03"
                18 (Some "WETH") (Some "Wrapped Ether"));
    (ZKSYNC, Token_new ZKSYNC "0xa1EA0B2354F5A344110af2b6AD68e75545009a03"
                18 (Some "WETH") (Some "Wrapped Ether"));
    (SCROLLGOERLITEST,
     Token_new SCROLLGOERLITEST "0xa1EA0B2354F5A344110af2b6AD68e75545009a03"
                18 (Some "WETH") (Some "Wrapped Ether"));
    (SCROLLSEPOLIATEST,
     Token_new SCROLLSEPOLIATEST "0x5300000000000000000000000000000000000004"
                18 (Some "WETH") (Some "Wrapped Ether"));
    (SCROLL, Token_new SCROLL "0x5300000000000000000000000000000000000004"
                18 (Some "WETH") (Some "Wrapped Ether"))
  ] ∅.

(** A property [[k]: new Token(k, a, 18, s, n)] with a well-formed [a]. *)
Definition wrappedProperty (p : ChainId * M loc) : Prop :=
  exists a s n, isAddress a = true /\ p.2 = Token_new p.1 a 18 s n.

End Construction.

(** ** The TOKENS registry *)

(** An object literal of constants: the properties are defined in the
    order they are written, a later one replacing an earlier one of the
    same key. *)
Definition objectOf {K : Type} `{Countable K} {V : Type}
    (properties : list (K * V)) : gmap K V :=
  fold_left (fun o p => <[p.1:=p.2]> o) properties ∅.

(** [TOKENS[chain].Tokens.ADDRESSES[name]] and
    [TOKENS[chain].Tokens.Pair[name]] are address strings. *)
Record TokensRegistry : Type := mkTokensRegistry {
  ADDRESSES : gmap string string;
  Pair : gmap string string
}.

Record ChainRegistry : Type := mkChainRegistry {
  Tokens : TokensRegistry
}.

Definition TOKENS : gmap ChainId ChainRegistry :=
  objectOf [
    (SCROLL,
     {| Tokens := {|
          ADDRESSES := objectOf [
            ("tokenA", "0x738BE769a3f9C2887d657D25C734b0d16FBf9459");
            ("tokenB", "0x7c69709b8AC34058990066D32c08637f667eb3De");
            ("WETH", "0x5300000000000000000000000000000000000004");
            ("USDC", "0x06eFdBFf2a14a7c8E15944D1F4A48F9F95F663A4");
            ("USDT", "0xf55BEC9cafDbE8730f096Aa55dad6D22d44099Df");
            ("axlUSDC", "0xEB466342C4d449BC9f53A865D5Cb90586f405215");
            ("WBTC", "0x3C1BCa5a656e69edCD0D4E36BEbb3FcDAcA60Cf1");
            ("SpaceFi", "0xD8d530b676AFBe5eb74B2F345099726aDaBca848");
            ("DAI", "0xcA77eB3fEFe3725Dc33bccB54eDEFc3D9f764f97");
            ("PUNK", "0xDdEB23905F6987d5f786A93C00bBED3d97Af1ccc");
            ("SCRIPT", "0x87203Ff9393dC97D7847B4D4103bC32fea7d2DB2");
            ("wstETH", "0xf610A9dfB7C89644979b4A0f27063E9e7d7Cda32");
            ("KNC", "0x608ef9A3BffE206B86c3108218003b3cfBf99c84");
            ("roulette", "0x5Ff3dFAcabc9FA708490035000EcFeC100e5787A");
            ("FLW", "0x506e9a6822F9991209BdE789B27e5dC6c885EF99");
            ("Shegby", "0x12D27570A092E54082Ce3c3301714a0f4694AdbD");
            ("ROCK", "0xCE3CfE8781E6dD5EE185d63100236743469acfA1");
            ("SC", "0x0cB369D9568E650361d789C20485DFb2E2608Cc7");
            ("XLCL", "0x9D91C21b1c12Ebc8743CE8Ad5FfF4F958439E602");
            ("SOI", "0xe795F59D3556285454bd00Cabc35682dc8455Fc2");
            ("IZI", "0x9acE0E3bb92948647D91CaF5406c402f37A62686")
          ];
          Pair := objectOf [
            ("tokenA_tokenB", "0x9BA1B29ff7fa2a0e4744C6098067E722D419c127");
            ("USDC_tokenB", "0x6873f1e2e47D1bDEEa36C4D71A31316E8DC7dD1b");
            ("USDC_WETH", "0x6905C59Be1a7Ea32d1F257E302401eC9a1401C52");
            ("USDC_USDT", "0x663864d52C38741001A73D270F4Da50005c647fA");
            ("WETH_USDT", "0x33c00e5E2Cf3F25E7c586a1aBdd8F636037A57a0");
            ("USDC_tokenA", "0x5Bf4461dc7074e51647BaD447668B6a7c4e82cF3");
            ("WETH_axlUSDC", "0x1AF6ed99A43a038573162BB75731FAD1102d6DDc");
            ("WBTC_WETH", "0xfA776F4e1ED05B0c9ABDa488Ab142541cF7c195c");
            ("WETH_SpaceFi", "0xf10a58Fd0eb6087e3b9d981AFA91c1740e818d62");
            ("WETH_DAI", "0x6b39911E2FeC73a995B1Db414E9E948d17b53c6d");
            ("USDC_axlUSDC", "0xF6317ce2d1De3D3dc9FceB9f02cAdD14FA9aF7c9");
            ("USDC_DAI", "0x31bD41030227196E10E63F5bAbE92A413568b1e8");
            ("WETH_PUNK", "0xC449d2dE0c08b67a4aF30367Bf233b9DCAc7626e");
            ("WETH_SCRIPT", "0x74d4946071e2ED0230eFF9319D9523D931B2fbAb");
            ("USDC_wstETH", "0x9F39E956c9F164d22BcD874b413461CE7862212F");
            ("USDC_WBTC", "0x90d9Ea36577aF993c39eF143177406616B8105c7");
            ("WBTC_USDT", "0xD0e620a856722217470bcd88b3DD0C7e3492C6f7");
            ("DAI_USDT", "0x18e6A6977A69A2a5d8152230437740257A9261F1");
            ("WETH_KNC", "0x9498CA6b30b978419F37f42b5a9b6A678BF8c3d2");
            ("WETH_roulette", "0xC737e24166f1921b5D04Ef94d4A580e124BeFD2a");
            ("FLW_WETH", "0x2FFE27063E175EaDdBa38a92E9d43721e2f40804");
            ("USDC_Shegby", "0xD16E3b7105262A6AEfBB4B4B199253B57e224dc4");
            ("WETH_ROCK", "0x877C91aC898aC71FD22C634C51e82985BCB77C64");
            ("SC_WETH", "0x19316BF03Ee2cEC9500144a0904Cc4ff6d41045b");
            ("WETH_XLCL", "0xE0a449D265BC2AacdFE1971C274D2cDd56aC8A97");
            ("SOI_USDT", "0x4404b964bbccFAe5ad2D4671dFDA7B7c25efBa1a");
            ("IZI_SOI", "0xa072a26cC92F02F07273108591316C3238b2D51C");
            ("WETH_wstETH", "0xBE7c742b944a6e38dD3A4C50100fa5fa1f451401")
          ]
        |} |});
    (SCROLLSEPOLIATEST,
     {| Tokens := {|
          ADDRESSES := objectOf [
            ("WETH", "0x5300000000000000000000000000000000000004");
            ("SPACE", "0xeFBB3810C4347f416d2A24EE37b09b466b6Eac15");
            ("GHO", "0xD9692f1748aFEe00FACE2da35242417dd05a8615")
          ];
          Pair := objectOf [
            ("WETH_GHO", "0xb2fCdC9763Bc44bF6DBF9F9C070E3eA3C01c67df");
            ("WETH_SPACE", "0xB473160C57C7b2D228Ba5A5f3c76EBC2E9668c65");
            ("GHO_SPACE", "0xA85AbCc53B1914d0bd0df4acA70e7E4139dd11fc")
          ]
        |} |})
  ].

(** ** Definitions used by the statements *)

(** The table that an object literal builds from properties whose values
    are allocated one after the other, the first of them at [n]. *)
Fixpoint tableFrom (n : loc) (keys : list ChainId) (o : gmap ChainId loc)
  : gmap ChainId loc :=
  match keys with
  | [] => o
  | k :: rest => tableFrom (S n) rest (<[k:=n]> o)
  end.

(** The objects that the construction of the [WETH] table allocates. *)
Definition WETH_objects (checksum : string -> string) : heap :=
  match WETH checksum [] with
  | Ok (_, h) => h
  | Err _ => []
  end.

(** The chains of the [WETH] table, in the order of the source. *)
Definition WETH_keys : list ChainId :=
  [MAINNET; ROPSTEN; RINKEBY; GÖRLI; KOVAN; BSC; CHAPEL; MATIC; MUMBAI;
   EVMOSTEST; EVMOS; CELO; CELOALFAJORES; ZKSYNCTEST; ZKSYNC;
   SCROLLGOERLITEST; SCROLLSEPOLIATEST; SCROLL].

(** The addresses of a table of names, in lower case. *)
Definition lowerAddresses (entries : list (string * string)) : list string :=
  (fun p => toLowerCase p.2) <$> entries.

(** The object at [l] is a token of chain [k] with 18 decimals. *)
Definition wrapsNative (h : heap) (k : ChainId) (l : loc) : Prop :=
  exists t, h !! l = Some (OToken t) /\ chainId t = k /\ decimals t = 18.

Definition tableOk (o : gmap ChainId loc) (h : heap) : Prop :=
  forall k l, o !! k = Some l -> wrapsNative h k l.

(** Two tokens have the same identity when [chainId] and [address] are
    strictly equal: the [equivalent] of [equals]. *)
Definition sameIdentity (t u : Token) : Prop :=
  chainId t = chainId u /\ address t = address u.

(** The metadata of two tokens agree: equal decimals, and equal symbols
    (names) when both tokens provide one; a symbol or name is provided
    when it is truthy. *)
Definition metadataAgree (t u : Token) : Prop :=
  decimals t = decimals u /\
  (truthy (symbol t) = true -> truthy (symbol u) = true -> symbol t = symbol u) /\
  (truthy (name t) = true -> truthy (name u) = true -> name t = name u).

(** The metadata checks of [equals], run when the identities match;
    [equals_distinct] below relates it to [equals]. *)
Definition metadataChecks (t u : Token) : result unit :=
  invariant (bool_decide (decimals t = decimals u)) "DECIMALS" ;;
  (if truthy (symbol t) && truthy (symbol u)
   then invariant (bool_decide (symbol t = symbol u)) "SYMBOL"
   else Ok tt) ;;
  (if truthy (name t) && truthy (name u)
   then invariant (bool_decide (name t = name u)) "NAME"
   else Ok tt).

(** Two casing rules the validator may choose: every letter in lower
    case, and the hexadecimal digits [a]-[f] in upper case. *)
Definition lowerCaseForm (s : string) : string := s.

Definition upper_digit (c : ascii) : ascii :=
  let n := N_of_ascii c in
  if ((97 <=? n) && (n <=? 102))%N then ascii_of_N (n - 32) else c.

Fixpoint upperCaseDigits (s : string) : string :=
  match s with
  | EmptyString => EmptyString
  | String c s' => String (upper_digit c) (upperCaseDigits s')
  end.

(** Tokens and currencies for the examples. *)
Definition wethAddress : string := "0xC02aaA39b223FE8D0A0e5C4F27eAD9083C756Cc2".
Definition wethAddressLower : string := "0xc02aaa39b223fe8d0a0e5c4f27ead9083c756cc2".
Definition daiAddressLower : string := "0x6b175474e89094c44da98b954eedeac495271d0f".

Definition weth : Token :=
  mkToken (mkCurrency 18 (Some "WETH") (Some "Wrapped Ether")) MAINNET wethAddressLower.
Definition weth6 : Token :=
  mkToken (mkCurrency 6 (Some "WETH") (Some "Wrapped Ether")) MAINNET wethAddressLower.
Definition wethNoSymbol : Token :=
  mkToken (mkCurrency 18 (Some "") (Some "")) MAINNET wethAddressLower.
Definition wethRopsten : Token :=
  mkToken (mkCurrency 8 (Some "W") None) ROPSTEN wethAddressLower.
Definition dai : Token :=
  mkToken (mkCurrency 18 (Some "DAI") None) MAINNET daiAddressLower.
Definition ether : Currency := mkCurrency 18 (Some "ETH") (Some "Ether").

(** A [Token] record with other metadata, for the examples. *)
Definition wethPlain : Token :=
  mkToken (mkCurrency 18 None None) MAINNET wethAddressLower.
Definition wethOther : Token :=
  mkToken (mkCurrency 18 (Some "ETH") (Some "Ether")) MAINNET wethAddressLower.
Definition usdt : Token :=
  mkToken (mkCurrency 6 (Some "USDT") None) MAINNET
    "0xdAC17F958D2ee523a2206206994597C13D831ec7".
Definition usdcScroll : string := "0x06eFdBFf2a14a7c8E15944D1F4A48F9F95F663A4".
Definition usdtScroll : string := "0xf55BEC9cafDbE8730f096Aa55dad6D22d44099Df".

(** ** Small examples *)

Example ex_equals :
  let h := [OToken weth; OToken weth; OCurrency ether] in
  equals h 0%nat 1%nat = Ok true /\ currencyEquals h 0%nat 2%nat = Ok false /\
  sortsBefore h 0%nat 1%nat = Err IdenticalAddress.
Proof. vm_compute. auto. Qed.

Example ex_weth :
  exists tbl h, WETH lowerCaseForm [] = Ok (tbl, h) /\ tbl !! EVMOS = Some 10%nat /\
    length h = 18%nat.
Proof. eexists _, _. vm_compute. auto. Qed.

Example ex_validate :
  validateAndParseAddress upperCaseDigits wethAddress =
    Ok "0xC02AAA39B223FE8D0A0E5C4F27EAD9083C756CC2" /\
  validateAndParseAddress lowerCaseForm wethAddress = Ok wethAddressLower /\
  validateAndParseAddress lowerCaseForm "0xC02aaA39b223FE8D0A0e5C4F27eAD9083C756Cc"
    = Err InvalidAddress.
Proof. repeat split; reflexivity. Qed.

(** ** Reading the store *)

Lemma getToken_lookup (h : heap) (x : loc) (t : Token) :
  h !! x = Some (OToken t) -> getToken h x = Ok t.
Proof. unfold getToken. now intros ->. Qed.

Lemma instanceofToken_token (h : heap) (x : loc) (t : Token) :
  h !! x = Some (OToken t) -> instanceofToken h x = true.
Proof. unfold instanceofToken. now intros ->. Qed.

Lemma instanceofToken_currency (h : heap) (x : loc) (c : Currency) :
  h !! x = Some (OCurrency c) -> instanceofToken h x = false.
Proof. unfold instanceofToken. now intros ->. Qed.

(** ** Token.equals *)

Lemma equals_distinct (h : heap) (this other : loc) (t u : Token) :
  this <> other ->
  h !! this = Some (OToken t) -> h !! other = Some (OToken u) ->
  equals h this other =
    if bool_decide (chainId t = chainId u) && bool_decide (address t = address u)
    then (metadataChecks t u ;; Ok true)
    else Ok false.
Proof.
  intros Hne Ht Hu. unfold equals.
  rewrite bool_decide_eq_false_2 by exact Hne.
  rewrite (getToken_lookup _ _ _ Ht), (getToken_lookup _ _ _ Hu).
  cbn [bind]. fold (metadataChecks t u).
  destruct (bool_decide (chainId t = chainId u) &&
            bool_decide (address t = address u)); reflexivity.
Qed.

Lemma equals_same (h : heap) (this : loc) : equals h this this = Ok true.
Proof. unfold equals. now rewrite bool_decide_eq_true_2. Qed.

Lemma sameIdentity_decide (t u : Token) :
  bool_decide (chainId t = chainId u) && bool_decide (address t = address u) = true
  <-> sameIdentity t u.
Proof.
  unfold sameIdentity.
  rewrite andb_true_iff, !bool_decide_eq_true. reflexivity.
Qed.

Lemma metadataChecks_cases (t u : Token) :
  (metadataChecks t u = Ok tt /\
     decimals t = decimals u /\
     (truthy (symbol t) = true -> truthy (symbol u) = true -> symbol t = symbol u) /\
     (truthy (name t) = true -> truthy (name u) = true -> name t = name u))
  \/ (metadataChecks t u = Err (InvariantFailed "DECIMALS") /\
      decimals t <> decimals u)
  \/ (metadataChecks t u = Err (InvariantFailed "SYMBOL") /\
      decimals t = decimals u /\
      truthy (symbol t) = true /\ truthy (symbol u) = true /\ symbol t <> symbol u)
  \/ (metadataChecks t u = Err (InvariantFailed "NAME") /\
      decimals t = decimals u /\
      (truthy (symbol t) = true -> truthy (symbol u) = true -> symbol t = symbol u) /\
      truthy (name t) = true /\ truthy (name u) = true /\ name t <> name u).
Proof.
  unfold metadataChecks, invariant.
  destruct (bool_decide_reflect (decimals t = decimals u)) as [Hd|Hd];
    cbn [bind]; [|tauto].
  destruct (truthy (symbol t)) eqn:Hst, (truthy (symbol u)) eqn:Hsu; cbn [andb bind];
    try destruct (bool_decide_reflect (symbol t = symbol u)) as [Hs|Hs]; cbn [bind];
    try (right; right; left; tauto);
    (destruct (truthy (name t)) eqn:Hnt, (truthy (name u)) eqn:Hnu; cbn [andb];
     try destruct (bool_decide_reflect (name t = name u)) as [Hn|Hn];
     first [ left; repeat split; (assumption || congruence || discriminate)
           | right; right; right; repeat split;
             (assumption || congruence || discriminate) ]).
Qed.

(** C2: for two distinct token objects, [equals] raises one of the
    InconsistentTokenMetadata invariants exactly when the two tokens have
    the same identity and their decimals differ, or both provide a symbol
    and the symbols differ, or both provide a name and the names differ
    (a symbol or name is provided when it is defined and not the empty
    string); when the identities differ it returns false, whatever the
    metadata. *)
Theorem equals_raises_iff (h : heap) (this other : loc) (t u : Token) :
  this <> other ->
  h !! this = Some (OToken t) -> h !! other = Some (OToken u) ->
  ((exists e, equals h this other = Err e /\ InconsistentTokenMetadata e) <->
   sameIdentity t u /\
   (decimals t <> decimals u \/
    (truthy (symbol t) = true /\ truthy (symbol u) = true /\ symbol t <> symbol u) \/
    (truthy (name t) = true /\ truthy (name u) = true /\ name t <> name u)))
  /\ (~ sameIdentity t u -> equals h this other = Ok false).
Proof.
  intros Hne Ht Hu. rewrite (equals_distinct h this other t u Hne Ht Hu).
  destruct (bool_decide (chainId t = chainId u) &&
            bool_decide (address t = address u)) eqn:Hid.
  - apply sameIdentity_decide in Hid. split; [|tauto].
    unfold InconsistentTokenMetadata.
    destruct (metadataChecks_cases t u)
      as [(-> & Hd & Hs & Hn) | [(-> & Hd) | [(-> & Hd & Hs1 & Hs2 & Hs)
         | (-> & Hd & Hs & Hn1 & Hn2 & Hn)]]]; cbn [bind].
    + split.
      * intros (e & He & _). discriminate He.
      * intros (_ & [Hd' | [(? & ? & Hs') | (? & ? & Hn')]]);
          [ tauto | exfalso; apply Hs'; auto | exfalso; apply Hn'; auto ].
    + split; [tauto|]. intros _. eexists. split; [reflexivity|]. tauto.
    + split; [tauto|]. intros _. eexists. split; [reflexivity|]. tauto.
    + split; [tauto|]. intros _. eexists. split; [reflexivity|]. tauto.
  - split; [|reflexivity].
    assert (~ sameIdentity t u) as Hno.
    { rewrite <- sameIdentity_decide, Hid. discriminate. }
    split.
    + intros (e & He & _). discriminate He.
    + tauto.
Qed.

(** C7: two tokens with equal addresses and different chainIds: [equals]
    returns false and raises nothing, whatever their decimals, symbols and
    names are. *)
Theorem equals_cross_chain (h : heap) (this other : loc) (t u : Token) :
  h !! this = Some (OToken t) -> h !! other = Some (OToken u) ->
  address t = address u -> chainId t <> chainId u ->
  equals h this other = Ok false.
Proof.
  intros Ht Hu _ Hc.
  assert (this <> other) as Hne.
  { intros ->. rewrite Ht in Hu. injection Hu as ->. now apply Hc. }
  rewrite (equals_distinct h this other t u Hne Ht Hu).
  now rewrite (bool_decide_eq_false_2 _ Hc).
Qed.

(** C9: for two tokens with the same identity, when the symbol of either
    is the empty string [equals] does not raise SYMBOL, even if the other
    symbol is a different, non-empty one; likewise for an empty name and
    NAME. *)
Theorem equals_empty_string_not_provided (h : heap) (this other : loc) (t u : Token) :
  h !! this = Some (OToken t) -> h !! other = Some (OToken u) ->
  sameIdentity t u ->
  (symbol t = Some "" \/ symbol u = Some "" ->
   equals h this other <> Err (InvariantFailed "SYMBOL")) /\
  (name t = Some "" \/ name u = Some "" ->
   equals h this other <> Err (InvariantFailed "NAME")).
Proof.
  intros Ht Hu Hid.
  destruct (decide (this = other)) as [->|Hne].
  { rewrite equals_same. split; discriminate. }
  rewrite (equals_distinct h this other t u Hne Ht Hu).
  apply sameIdentity_decide in Hid. rewrite Hid.
  split; intros Hempty;
    destruct (metadataChecks_cases t u)
      as [(-> & _) | [(-> & _) | [(-> & _ & Hs1 & Hs2 & _)
         | (-> & _ & _ & Hn1 & Hn2 & _)]]]; cbn [bind]; try discriminate;
    exfalso; destruct Hempty as [He|He]; rewrite He in *; discriminate.
Qed.

(** ** Token.sortsBefore *)

(** C4: [sortsBefore] fails with CrossChainComparison whenever the
    chainIds differ, whatever the addresses are, and with IdenticalAddress
    when the chainIds are equal and the addresses are equal; so
    [A.sortsBefore(A)] fails with IdenticalAddress. *)
Theorem sortsBefore_misuse (h : heap) (this other : loc) (t u : Token) :
  h !! this = Some (OToken t) -> h !! other = Some (OToken u) ->
  (chainId t <> chainId u -> sortsBefore h this other = Err CrossChainComparison) /\
  (chainId t = chainId u -> address t = address u ->
   sortsBefore h this other = Err IdenticalAddress) /\
  sortsBefore h this this = Err IdenticalAddress.
Proof.
  intros Ht Hu. unfold sortsBefore.
  rewrite (getToken_lookup _ _ _ Ht), (getToken_lookup _ _ _ Hu). cbn [bind].
  repeat split.
  - intros Hc. now rewrite (bool_decide_eq_false_2 _ Hc).
  - intros Hc Ha. now rewrite (bool_decide_eq_true_2 _ Hc), (bool_decide_eq_true_2 _ Ha).
  - now rewrite !bool_decide_eq_true_2.
Qed.

(** ** currencyEquals *)

(** C5: when exactly one of the two currencies is a Token,
    [currencyEquals] returns false, whatever fields the two share; when
    both are Tokens it returns what [Token.equals] returns. *)
Theorem currencyEquals_token (h : heap) (currencyA currencyB : loc) :
  (forall (t : Token) (c : Currency),
     h !! currencyA = Some (OToken t) -> h !! currencyB = Some (OCurrency c) ->
     currencyEquals h currencyA currencyB = Ok false) /\
  (forall (c : Currency) (t : Token),
     h !! currencyA = Some (OCurrency c) -> h !! currencyB = Some (OToken t) ->
     currencyEquals h currencyA currencyB = Ok false) /\
  (forall (t u : Token),
     h !! currencyA = Some (OToken t) -> h !! currencyB = Some (OToken u) ->
     currencyEquals h currencyA currencyB = equals h currencyA currencyB).
Proof.
  unfold currencyEquals. repeat split.
  - intros t c Ha Hb.
    now rewrite (instanceofToken_token _ _ _ Ha), (instanceofToken_currency _ _ _ Hb).
  - intros c t Ha Hb.
    now rewrite (instanceofToken_currency _ _ _ Ha), (instanceofToken_token _ _ _ Hb).
  - intros t u Ha Hb.
    now rewrite (instanceofToken_token _ _ _ Ha), (instanceofToken_token _ _ _ Hb).
Qed.

(** C6, as the code has it: for two currencies that are not Tokens,
    [currencyEquals] is reference equality: it returns true exactly when
    the two are the same object, whatever their fields. *)
Theorem currencyEquals_native (h : heap) (currencyA currencyB : loc) (a b : Currency) :
  h !! currencyA = Some (OCurrency a) -> h !! currencyB = Some (OCurrency b) ->
  currencyEquals h currencyA currencyB = Ok (bool_decide (currencyA = currencyB)) /\
  (currencyEquals h currencyA currencyB = Ok true <-> currencyA = currencyB).
Proof.
  intros Ha Hb. unfold currencyEquals.
  rewrite (instanceofToken_currency _ _ _ Ha), (instanceofToken_currency _ _ _ Hb).
  cbn [andb]. split; [reflexivity|].
  case_bool_decide; split; (congruence || discriminate || auto).
Qed.

(** C6 as stated fails: two distinct native-currency objects with equal
    decimals, symbol and name do not compare equal. *)
Lemma currencyEquals_native_equal_fields_false :
  let h := [OCurrency ether; OCurrency ether] in
  h !! 0%nat = Some (OCurrency ether) /\ h !! 1%nat = Some (OCurrency ether) /\
  currencyEquals h 0%nat 1%nat = Ok false /\
  currencyEquals h 0%nat 1%nat <> Ok true.
Proof. vm_compute. repeat split; discriminate. Qed.

(** ** Strings: lower case and order *)

Lemma lower_ascii_idem (c : ascii) : lower_ascii (lower_ascii c) = lower_ascii c.
Proof. destruct c as [[] [] [] [] [] [] [] []]; reflexivity. Qed.

Lemma toLowerCase_idem (s : string) : toLowerCase (toLowerCase s) = toLowerCase s.
Proof.
  induction s as [|c s IH]; [reflexivity|].
  cbn [toLowerCase]. now rewrite lower_ascii_idem, IH.
Qed.

Lemma ltb_trichotomy (s1 s2 : string) :
  s1 <> s2 ->
  (String.ltb s1 s2 = true /\ String.ltb s2 s1 = false) \/
  (String.ltb s1 s2 = false /\ String.ltb s2 s1 = true).
Proof.
  intros Hne. unfold String.ltb.
  rewrite (String.compare_antisym s1 s2).
  destruct (String.compare s2 s1) eqn:Hc; cbn [CompOpp]; auto.
  apply String.compare_eq_iff in Hc. congruence.
Qed.

(** ** Address syntax *)

Lemma isAddress_inv (s : string) :
  isAddress s = true ->
  exists digits, s = String "0" (String "x" digits) /\
    String.length digits = 40%nat /\ allHexDigits digits = true.
Proof.
  destruct s as [|c0 [|c1 digits]]; try discriminate. cbn [isAddress].
  rewrite !andb_true_iff. intros [[[H0 H1] Hl] Hh].
  apply Ascii.eqb_eq in H0, H1. apply Nat.eqb_eq in Hl. subst. eauto.
Qed.

Lemma allHexDigits_get (s : string) (i : nat) (c : ascii) :
  allHexDigits s = true -> String.get i s = Some c -> isHexDigit c = true.
Proof.
  revert i. induction s as [|c' s IH]; intros i Hall Hget; [discriminate|].
  cbn [allHexDigits] in Hall. apply andb_true_iff in Hall as [Hc Hs].
  destruct i as [|i]; cbn [String.get] in Hget.
  - now injection Hget as <-.
  - eauto.
Qed.

Lemma malformed_not_isAddress (s : string) : malformed s -> isAddress s = false.
Proof.
  intros Hbad. destruct (isAddress s) eqn:Hs; [exfalso|reflexivity].
  apply isAddress_inv in Hs as (digits & -> & Hl & Hh).
  destruct Hbad as [Hlen | (i & c & Hi & Hget & Hc)].
  - apply Hlen. cbn [String.length]. now rewrite Hl.
  - destruct i as [|[|i]]; [lia | lia |]. cbn [String.get] in Hget.
    rewrite (allHexDigits_get _ _ _ Hh Hget) in Hc. discriminate.
Qed.

Section Properties.

Variable checksum : string -> string.

(** The canonical form of an address differs from the address in letter
    casing only. *)
Hypothesis checksum_casing :
  forall a, isAddress a = true ->
            toLowerCase (checksum (toLowerCase a)) = toLowerCase a.

(** *** The constructor *)

Lemma Token_new_Ok (c : ChainId) (a : string) (d : Z) (s n : option string)
    (h : heap) :
  0 <= d <= 255 -> isAddress a = true ->
  Token_new checksum c a d s n h =
    Ok (length h,
        h ++ [OToken (mkToken (mkCurrency d s n) c (checksum (toLowerCase a)))]).
Proof.
  intros Hd Ha. unfold Token_new, Currency_constructor, validateAndParseAddress.
  rewrite Ha.
  replace ((0 <=? d) && (d <=? 255)) with true; [reflexivity|].
  symmetry. apply andb_true_iff. split; apply Z.leb_le; lia.
Qed.

Lemma Token_new_inv (c : ChainId) (a : string) (d : Z) (s n : option string)
    (h h' : heap) (l : loc) :
  Token_new checksum c a d s n h = Ok (l, h') ->
  0 <= d <= 255 /\ isAddress a = true /\ l = length h /\
  h' = h ++ [OToken (mkToken (mkCurrency d s n) c (checksum (toLowerCase a)))].
Proof.
  unfold Token_new, Currency_constructor, validateAndParseAddress.
  destruct ((0 <=? d) && (d <=? 255)) eqn:Hd; cbn [bind]; [|discriminate].
  destruct (isAddress a) eqn:Ha; cbn [bind]; [|discriminate].
  unfold alloc. intros [= <- <-].
  apply andb_true_iff in Hd as [H0 H1]. apply Z.leb_le in H0, H1.
  repeat split; lia.
Qed.

Lemma lookup_alloc (h : heap) (o : object) : (h ++ [o]) !! length h = Some o.
Proof. apply list_lookup_middle. reflexivity. Qed.

Lemma constructedFrom_inv (c : ChainId) (a : string) (d : Z)
    (s n : option string) (t : Token) :
  constructedFrom checksum c a d s n t ->
  0 <= d <= 255 /\ isAddress a = true /\
  t = mkToken (mkCurrency d s n) c (checksum (toLowerCase a)).
Proof.
  intros (h & l & h' & Hnew & Hl).
  apply Token_new_inv in Hnew as (Hd & Ha & -> & ->).
  rewrite lookup_alloc in Hl. injection Hl as <-. auto.
Qed.

Lemma constructed_address (t : Token) :
  constructed checksum t ->
  exists a, isAddress a = true /\ address t = checksum (toLowerCase a).
Proof.
  intros (c & a & d & s & n & Ht).
  apply constructedFrom_inv in Ht as (_ & Ha & ->). eauto.
Qed.

(** Case-insensitive uniqueness of canonical addresses. *)
Lemma constructed_address_case (t u : Token) :
  constructed checksum t -> constructed checksum u ->
  toLowerCase (address t) = toLowerCase (address u) <-> address t = address u.
Proof.
  intros Ht Hu. split; [|congruence].
  apply constructed_address in Ht as (a & Ha & ->).
  apply constructed_address in Hu as (b & Hb & ->).
  rewrite !checksum_casing by assumption. now intros ->.
Qed.

(** *** Token.equals on constructed tokens *)

Lemma metadataChecks_Ok (t u : Token) :
  metadataChecks t u = Ok tt <-> metadataAgree t u.
Proof.
  unfold metadataAgree.
  destruct (metadataChecks_cases t u)
    as [(-> & Hd & Hs & Hn) | [(-> & Hd) | [(-> & Hd & Hs1 & Hs2 & Hs)
       | (-> & Hd & Hs & Hn1 & Hn2 & Hn)]]].
  - tauto.
  - split; [discriminate | tauto].
  - split; [discriminate | tauto].
  - split; [discriminate | tauto].
Qed.

Lemma metadataAgree_refl (t : Token) : metadataAgree t t.
Proof. unfold metadataAgree. auto. Qed.

Lemma equals_true_distinct (h : heap) (this other : loc) (t u : Token) :
  this <> other ->
  h !! this = Some (OToken t) -> h !! other = Some (OToken u) ->
  (equals h this other = Ok true <-> sameIdentity t u /\ metadataAgree t u) /\
  (equals h this other = Ok false <-> ~ sameIdentity t u).
Proof.
  intros Hne Ht Hu. rewrite (equals_distinct h this other t u Hne Ht Hu).
  rewrite <- metadataChecks_Ok, <- sameIdentity_decide.
  destruct (bool_decide (chainId t = chainId u) &&
            bool_decide (address t = address u)).
  - destruct (metadataChecks t u) as [[]|e]; cbn [bind]; split; split;
      intros; try tauto; try discriminate; intuition discriminate.
  - split; split; intros; try tauto; try discriminate; intuition discriminate.
Qed.

(** C1, as the code has it: for two constructed tokens, [equals]
    returns true exactly when the chainIds are equal, the addresses are
    equal up to letter casing and the metadata agree, and returns false
    exactly when the chainIds differ or the addresses differ up to letter
    casing; in particular two tokens built from the same chainId, from
    addresses that differ in letter casing only, and from the same
    decimals, symbol and name are equal. *)
Theorem equals_true_iff (h : heap) (this other : loc) (t u : Token) :
  h !! this = Some (OToken t) -> h !! other = Some (OToken u) ->
  constructed checksum t -> constructed checksum u ->
  (equals h this other = Ok true <->
     chainId t = chainId u /\
     toLowerCase (address t) = toLowerCase (address u) /\
     metadataAgree t u) /\
  (equals h this other = Ok false <->
     ~ (chainId t = chainId u /\
        toLowerCase (address t) = toLowerCase (address u))) /\
  (forall (c : ChainId) (a b : string) (d : Z) (s n : option string),
     constructedFrom checksum c a d s n t ->
     constructedFrom checksum c b d s n u ->
     toLowerCase a = toLowerCase b ->
     equals h this other = Ok true).
Proof.
  intros Ht Hu Ct Cu.
  pose proof (constructed_address_case t u Ct Cu) as Hcase.
  destruct (decide (this = other)) as [->|Hne].
  - rewrite Ht in Hu. injection Hu as <-. rewrite equals_same.
    pose proof (metadataAgree_refl t).
    repeat split; auto; try discriminate. intros Hno. exfalso. apply Hno. auto.
  - destruct (equals_true_distinct h this other t u Hne Ht Hu) as [Htrue Hfalse].
    unfold sameIdentity in Htrue, Hfalse.
    split; [rewrite Htrue; tauto|]. split; [rewrite Hfalse; tauto|].
    intros c a b d s n Hta Hub Hab. apply Htrue.
    apply constructedFrom_inv in Hta as (_ & _ & ->).
    apply constructedFrom_inv in Hub as (_ & _ & ->).
    cbn. rewrite Hab. unfold metadataAgree. cbn. auto.
Qed.

(** *** Token.sortsBefore on constructed tokens *)

(** C3: for two constructed tokens on the same chain with different
    addresses, [sortsBefore] returns true in exactly one direction and
    false in the other; in each direction it is the lexicographic
    comparison of the lower-cased addresses. *)
Theorem sortsBefore_total (h : heap) (a b : loc) (t u : Token) :
  h !! a = Some (OToken t) -> h !! b = Some (OToken u) ->
  constructed checksum t -> constructed checksum u ->
  chainId t = chainId u -> address t <> address u ->
  ((sortsBefore h a b = Ok true /\ sortsBefore h b a = Ok false) \/
   (sortsBefore h a b = Ok false /\ sortsBefore h b a = Ok true)) /\
  sortsBefore h a b =
    Ok (String.ltb (toLowerCase (address t)) (toLowerCase (address u))) /\
  sortsBefore h b a =
    Ok (String.ltb (toLowerCase (address u)) (toLowerCase (address t))).
Proof.
  intros Ht Hu Ct Cu Hc Ha.
  assert (toLowerCase (address t) <> toLowerCase (address u)) as Hlow.
  { now rewrite (constructed_address_case t u Ct Cu). }
  unfold sortsBefore.
  rewrite (getToken_lookup _ _ _ Ht), (getToken_lookup _ _ _ Hu). cbn [bind].
  rewrite (bool_decide_eq_true_2 _ Hc), (bool_decide_eq_true_2 _ (eq_sym Hc)).
  rewrite (bool_decide_eq_false_2 _ Ha).
  rewrite (bool_decide_eq_false_2 (address u = address t)) by congruence.
  cbn [invariant negb bind]. split; [|split; reflexivity].
  destruct (ltb_trichotomy _ _ Hlow) as [[-> ->] | [-> ->]]; auto.
Qed.

(** *** Construction and the address *)

(** C8, as the code has it: with decimals in the permitted range, the
    construction of a Token from a malformed address string (of the
    wrong length, or with a character that is not a hexadecimal digit)
    fails with InvalidAddress, and from a syntactically valid address it
    succeeds and stores the canonical form of the input, which differs
    from the input in letter casing only. *)
Theorem Token_new_address (c : ChainId) (a : string) (d : Z)
    (s n : option string) (h : heap) :
  0 <= d <= 255 ->
  (malformed a -> Token_new checksum c a d s n h = Err InvalidAddress) /\
  (isAddress a = false -> Token_new checksum c a d s n h = Err InvalidAddress) /\
  (isAddress a = true ->
   exists t, Token_new checksum c a d s n h = Ok (length h, h ++ [OToken t]) /\
     validateAndParseAddress checksum a = Ok (address t) /\
     toLowerCase (address t) = toLowerCase a).
Proof.
  intros Hd.
  assert (isAddress a = false ->
          Token_new checksum c a d s n h = Err InvalidAddress) as Hbad.
  { intros Ha. unfold Token_new, Currency_constructor, validateAndParseAddress.
    rewrite Ha.
    replace ((0 <=? d) && (d <=? 255)) with true; [reflexivity|].
    symmetry. apply andb_true_iff. split; apply Z.leb_le; lia. }
  split; [|split].
  - intros Ha. apply Hbad. now apply malformed_not_isAddress.
  - exact Hbad.
  - intros Ha. eexists. split; [now apply Token_new_Ok|].
    unfold validateAndParseAddress. rewrite Ha. cbn [address].
    split; [reflexivity|]. now apply checksum_casing.
Qed.

Lemma wrapsNative_alloc (h : heap) (k : ChainId) (l : loc) (o : object) :
  wrapsNative h k l -> wrapsNative (h ++ [o]) k l.
Proof.
  intros (t & Hl & Hk & Hd). exists t. split; [|auto].
  now apply lookup_app_l_Some.
Qed.

Lemma objectLiteral_wrapped (properties : list (ChainId * M loc)) :
  Forall (wrappedProperty checksum) properties ->
  forall (o : gmap ChainId loc) (h : heap),
    tableOk o h ->
    exists tbl h', objectLiteral properties o h = Ok (tbl, h') /\
      tableOk tbl h' /\
      forall k, is_Some (tbl !! k) <-> is_Some (o !! k) \/ k ∈ properties.*1.
Proof.
  induction 1 as [|[k e] rest (a & s & n & Ha & He) _ IH]; intros o h Hok.
  - exists o, h. split; [reflexivity|]. split; [assumption|].
    intros k. cbn. rewrite elem_of_nil. tauto.
  - cbn in He. subst e. cbn [objectLiteral]. unfold bindM.
    rewrite Token_new_Ok by (lia || assumption).
    set (tok := OToken _).
    destruct (IH (<[k:=length h]> o) (h ++ [tok])) as (tbl & h' & Hrun & Hok' & Hdom).
    { intros k' l. rewrite lookup_insert. case_decide as Hk.
      - intros [= <-]. subst k'. eexists. split; [apply lookup_alloc|].
        split; reflexivity.
      - intros Hl. apply wrapsNative_alloc. now apply Hok. }
    exists tbl, h'. split; [exact Hrun|]. split; [exact Hok'|].
    intros k'. rewrite Hdom, fmap_cons, elem_of_cons. cbn [fst].
    rewrite lookup_insert. case_decide as Hk.
    + subst k'. split; [auto|]. intros _. left. eauto.
    + split; [tauto|]. intros [?|[?|?]]; [tauto | congruence | tauto].
Qed.

(** C10: the construction of the [WETH] table succeeds, and for every
    chainId key of the table the token stored under it has that chainId
    and 18 decimals; the keys are the eighteen chains of the table. *)
Theorem WETH_wellformed (h0 : heap) :
  exists tbl h, WETH checksum h0 = Ok (tbl, h) /\
    (forall k l, tbl !! k = Some l ->
       exists t, h !! l = Some (OToken t) /\ chainId t = k /\ decimals t = 18) /\
    (forall k : ChainId, is_Some (tbl !! k)).
Proof.
  unfold WETH.
  edestruct objectLiteral_wrapped as (tbl & h & Hrun & Hok & Hdom);
    [ | | exists tbl, h; split; [exact Hrun|] ].
  - repeat (constructor;
              [do 3 eexists; (split; [|reflexivity]); reflexivity|]).
    constructor.
  - intros k l. rewrite lookup_empty. discriminate.
  - split; [exact Hok|].
    intros k. apply Hdom. right. apply list_elem_of_In.
    destruct k; cbn; repeat ((left; reflexivity) || right).
Qed.

End Properties.

(** ** The theorems at concrete inputs *)

Lemma lowerCaseForm_casing (a : string) :
  isAddress a = true ->
  toLowerCase (lowerCaseForm (toLowerCase a)) = toLowerCase a.
Proof. intros _. apply toLowerCase_idem. Qed.

Lemma lower_upper_digit (c : ascii) : lower_ascii (upper_digit c) = lower_ascii c.
Proof. destruct c as [[] [] [] [] [] [] [] []]; reflexivity. Qed.

Lemma upperCaseDigits_casing (a : string) :
  isAddress a = true ->
  toLowerCase (upperCaseDigits (toLowerCase a)) = toLowerCase a.
Proof.
  intros _. rewrite <- (toLowerCase_idem a) at 2.
  induction (toLowerCase a) as [|c s IH]; [reflexivity|].
  cbn [upperCaseDigits toLowerCase]. now rewrite lower_upper_digit, IH.
Qed.

Lemma weth_constructed : constructed lowerCaseForm weth.
Proof.
  exists MAINNET, wethAddress, 18, (Some "WETH"), (Some "Wrapped Ether").
  exists [], 0%nat, [OToken weth]. split; reflexivity.
Qed.

Lemma dai_constructed : constructed lowerCaseForm dai.
Proof.
  exists MAINNET, daiAddressLower, 18, (Some "DAI"), None.
  exists [], 0%nat, [OToken dai]. split; reflexivity.
Qed.

Lemma equals_true_iff_witness :
  let h := [OToken weth; OToken weth] in
  h !! 0%nat = Some (OToken weth) /\ h !! 1%nat = Some (OToken weth) /\
  constructed lowerCaseForm weth /\
  constructedFrom lowerCaseForm MAINNET wethAddress 18
    (Some "WETH") (Some "Wrapped Ether") weth /\
  constructedFrom lowerCaseForm MAINNET wethAddressLower 18
    (Some "WETH") (Some "Wrapped Ether") weth /\
  toLowerCase wethAddress = toLowerCase wethAddressLower /\
  equals h 0%nat 1%nat = Ok true.
Proof.
  intros h.
  assert (h !! 0%nat = Some (OToken weth)) as H0 by reflexivity.
  assert (h !! 1%nat = Some (OToken weth)) as H1 by reflexivity.
  assert (constructedFrom lowerCaseForm MAINNET wethAddress 18
            (Some "WETH") (Some "Wrapped Ether") weth) as Ha.
  { exists [], 0%nat, [OToken weth]. split; reflexivity. }
  assert (constructedFrom lowerCaseForm MAINNET wethAddressLower 18
            (Some "WETH") (Some "Wrapped Ether") weth) as Hb.
  { exists [OToken weth], 1%nat, h. split; reflexivity. }
  assert (toLowerCase wethAddress = toLowerCase wethAddressLower) as Hab
    by reflexivity.
  repeat (split; [assumption || exact weth_constructed|]).
  exact (proj2 (proj2 (equals_true_iff lowerCaseForm lowerCaseForm_casing
                         h 0%nat 1%nat weth weth H0 H1
                         weth_constructed weth_constructed))
           MAINNET wethAddress wethAddressLower 18 _ _ Ha Hb Hab).
Defined.

(** C1 as stated fails: two constructed tokens with the same chainId and
    the same address whose decimals differ; [equals] raises DECIMALS and
    does not return true. *)
Lemma equals_same_identity_not_true :
  let h := [OToken weth; OToken weth6] in
  Token_new lowerCaseForm MAINNET wethAddress 18
    (Some "WETH") (Some "Wrapped Ether") [] = Ok (0%nat, [OToken weth]) /\
  Token_new lowerCaseForm MAINNET wethAddress 6
    (Some "WETH") (Some "Wrapped Ether") [OToken weth] = Ok (1%nat, h) /\
  equals h 0%nat 1%nat = Err (InvariantFailed "DECIMALS") /\
  ~ (equals h 0%nat 1%nat = Ok true <->
     chainId weth = chainId weth6 /\
     toLowerCase (address weth) = toLowerCase (address weth6)).
Proof.
  cbv zeta. split; [reflexivity|]. split; [reflexivity|].
  split; [reflexivity|]. intros [_ Hclaim].
  assert (equals [OToken weth; OToken weth6] 0%nat 1%nat = Ok true) as Heq.
  { apply Hclaim. split; reflexivity. }
  discriminate Heq.
Qed.

Lemma equals_raises_iff_witness :
  let h := [OToken weth; OToken weth6] in
  0%nat <> 1%nat /\
  h !! 0%nat = Some (OToken weth) /\ h !! 1%nat = Some (OToken weth6) /\
  exists e, equals h 0%nat 1%nat = Err e /\ InconsistentTokenMetadata e.
Proof.
  intros h.
  assert (0%nat <> 1%nat) as Hne by discriminate.
  assert (h !! 0%nat = Some (OToken weth)) as H0 by reflexivity.
  assert (h !! 1%nat = Some (OToken weth6)) as H1 by reflexivity.
  repeat (split; [assumption|]).
  apply (proj1 (equals_raises_iff h 0%nat 1%nat weth weth6 Hne H0 H1)).
  split; [split; reflexivity|]. left. discriminate.
Defined.

Lemma sortsBefore_total_witness :
  let h := [OToken weth; OToken dai] in
  h !! 0%nat = Some (OToken weth) /\ h !! 1%nat = Some (OToken dai) /\
  constructed lowerCaseForm weth /\ constructed lowerCaseForm dai /\
  chainId weth = chainId dai /\ address weth <> address dai /\
  sortsBefore h 0%nat 1%nat = Ok false /\ sortsBefore h 1%nat 0%nat = Ok true.
Proof.
  intros h.
  assert (h !! 0%nat = Some (OToken weth)) as H0 by reflexivity.
  assert (h !! 1%nat = Some (OToken dai)) as H1 by reflexivity.
  assert (chainId weth = chainId dai) as Hc by reflexivity.
  assert (address weth <> address dai) as Ha by discriminate.
  repeat (split; [assumption || exact weth_constructed || exact dai_constructed|]).
  destruct (sortsBefore_total lowerCaseForm lowerCaseForm_casing h 0%nat 1%nat
              weth dai H0 H1 weth_constructed dai_constructed Hc Ha)
    as (_ & Hab & Hba).
  split; [exact Hab | exact Hba].
Defined.

Lemma sortsBefore_misuse_witness :
  let h := [OToken weth; OToken wethRopsten] in
  h !! 0%nat = Some (OToken weth) /\ h !! 1%nat = Some (OToken wethRopsten) /\
  chainId weth <> chainId wethRopsten /\
  sortsBefore h 0%nat 1%nat = Err CrossChainComparison /\
  sortsBefore h 0%nat 0%nat = Err IdenticalAddress.
Proof.
  intros h.
  assert (h !! 0%nat = Some (OToken weth)) as H0 by reflexivity.
  assert (h !! 1%nat = Some (OToken wethRopsten)) as H1 by reflexivity.
  assert (chainId weth <> chainId wethRopsten) as Hc by discriminate.
  repeat (split; [assumption|]).
  destruct (sortsBefore_misuse h 0%nat 1%nat weth wethRopsten H0 H1)
    as (Hcross & _ & Hself).
  split; [exact (Hcross Hc) | exact Hself].
Defined.

Lemma currencyEquals_token_witness :
  let h := [OToken weth; OCurrency (super weth); OToken weth6] in
  h !! 0%nat = Some (OToken weth) /\ h !! 1%nat = Some (OCurrency (super weth)) /\
  h !! 2%nat = Some (OToken weth6) /\
  currencyEquals h 0%nat 1%nat = Ok false /\
  currencyEquals h 1%nat 0%nat = Ok false /\
  currencyEquals h 0%nat 2%nat = equals h 0%nat 2%nat.
Proof.
  intros h.
  assert (h !! 0%nat = Some (OToken weth)) as H0 by reflexivity.
  assert (h !! 1%nat = Some (OCurrency (super weth))) as H1 by reflexivity.
  assert (h !! 2%nat = Some (OToken weth6)) as H2 by reflexivity.
  repeat (split; [assumption|]).
  split; [|split].
  - exact (proj1 (currencyEquals_token h 0%nat 1%nat) _ _ H0 H1).
  - exact (proj1 (proj2 (currencyEquals_token h 1%nat 0%nat)) _ _ H1 H0).
  - exact (proj2 (proj2 (currencyEquals_token h 0%nat 2%nat)) _ _ H0 H2).
Defined.

Lemma currencyEquals_native_witness :
  let h := [OCurrency ether; OCurrency ether] in
  h !! 0%nat = Some (OCurrency ether) /\ h !! 1%nat = Some (OCurrency ether) /\
  currencyEquals h 0%nat 1%nat = Ok false /\ currencyEquals h 1%nat 1%nat = Ok true.
Proof.
  intros h.
  assert (h !! 0%nat = Some (OCurrency ether)) as H0 by reflexivity.
  assert (h !! 1%nat = Some (OCurrency ether)) as H1 by reflexivity.
  repeat (split; [assumption|]).
  split.
  - exact (proj1 (currencyEquals_native h 0%nat 1%nat ether ether H0 H1)).
  - exact (proj1 (currencyEquals_native h 1%nat 1%nat ether ether H1 H1)).
Defined.

Lemma equals_cross_chain_witness :
  let h := [OToken weth; OToken wethRopsten] in
  h !! 0%nat = Some (OToken weth) /\ h !! 1%nat = Some (OToken wethRopsten) /\
  address weth = address wethRopsten /\ chainId weth <> chainId wethRopsten /\
  decimals weth <> decimals wethRopsten /\
  equals h 0%nat 1%nat = Ok false.
Proof.
  intros h.
  assert (h !! 0%nat = Some (OToken weth)) as H0 by reflexivity.
  assert (h !! 1%nat = Some (OToken wethRopsten)) as H1 by reflexivity.
  assert (address weth = address wethRopsten) as Ha by reflexivity.
  assert (chainId weth <> chainId wethRopsten) as Hc by discriminate.
  assert (decimals weth <> decimals wethRopsten) as Hd by discriminate.
  repeat (split; [assumption|]).
  exact (equals_cross_chain h 0%nat 1%nat weth wethRopsten H0 H1 Ha Hc).
Defined.

Lemma equals_empty_string_not_provided_witness :
  let h := [OToken weth; OToken wethNoSymbol] in
  h !! 0%nat = Some (OToken weth) /\ h !! 1%nat = Some (OToken wethNoSymbol) /\
  sameIdentity weth wethNoSymbol /\
  symbol wethNoSymbol = Some "" /\ name wethNoSymbol = Some "" /\
  symbol weth <> symbol wethNoSymbol /\ name weth <> name wethNoSymbol /\
  equals h 0%nat 1%nat <> Err (InvariantFailed "SYMBOL") /\
  equals h 0%nat 1%nat <> Err (InvariantFailed "NAME").
Proof.
  intros h.
  assert (h !! 0%nat = Some (OToken weth)) as H0 by reflexivity.
  assert (h !! 1%nat = Some (OToken wethNoSymbol)) as H1 by reflexivity.
  assert (sameIdentity weth wethNoSymbol) as Hid by (split; reflexivity).
  assert (symbol wethNoSymbol = Some "") as Hs by reflexivity.
  assert (name wethNoSymbol = Some "") as Hn by reflexivity.
  assert (symbol weth <> symbol wethNoSymbol) as Hs' by discriminate.
  assert (name weth <> name wethNoSymbol) as Hn' by discriminate.
  repeat (split; [assumption|]).
  destruct (equals_empty_string_not_provided h 0%nat 1%nat weth wethNoSymbol
              H0 H1 Hid) as [Hsym Hname].
  split; [exact (Hsym (or_intror Hs)) | exact (Hname (or_intror Hn))].
Defined.

Lemma Token_new_address_witness :
  0 <= 18 <= 255 /\
  malformed "0x0000000000000000000000000000000000000g" /\
  isAddress wethAddress = true /\
  Token_new upperCaseDigits MAINNET "0x0000000000000000000000000000000000000g"
    18 None None [] = Err InvalidAddress /\
  exists t, Token_new upperCaseDigits MAINNET wethAddress 18 None None [] =
              Ok (0%nat, [OToken t]) /\
    validateAndParseAddress upperCaseDigits wethAddress = Ok (address t) /\
    toLowerCase (address t) = toLowerCase wethAddress.
Proof.
  assert (0 <= 18 <= 255) as Hd by lia.
  assert (malformed "0x0000000000000000000000000000000000000g") as Hbad.
  { left. unfold wrongLength. vm_compute. discriminate. }
  assert (isAddress wethAddress = true) as Hok by reflexivity.
  repeat (split; [assumption|]).
  split.
  - exact (proj1 (Token_new_address upperCaseDigits upperCaseDigits_casing MAINNET
                    "0x0000000000000000000000000000000000000g" 18 None None []
                    Hd) Hbad).
  - exact (proj2 (proj2 (Token_new_address upperCaseDigits upperCaseDigits_casing
                           MAINNET wethAddress 18 None None [] Hd)) Hok).
Defined.

(** C8 as stated fails: [super(decimals, symbol, name)] runs before the
    address is validated, so with decimals out of range a malformed
    address is not what the construction fails with, and a valid address
    does not make it succeed. *)
Lemma Token_new_malformed_not_InvalidAddress :
  malformed "0x0000000000000000000000000000000000000g" /\
  Token_new lowerCaseForm MAINNET "0x0000000000000000000000000000000000000g"
    256 None None [] = Err InvalidDecimals /\
  Token_new lowerCaseForm MAINNET "0x0000000000000000000000000000000000000g"
    256 None None [] <> Err InvalidAddress /\
  isAddress wethAddress = true /\
  Token_new lowerCaseForm MAINNET wethAddress 256 None None [] = Err InvalidDecimals.
Proof.
  split.
  { left. unfold wrongLength. vm_compute. discriminate. }
  split; [reflexivity|]. split; [discriminate|]. split; reflexivity.
Qed.

(** * Further properties of the entities *)

(** ** Shared lemmas *)

Lemma metadataChecks_sym (t u : Token) : metadataChecks t u = metadataChecks u t.
Proof.
  unfold metadataChecks.
  rewrite (bool_decide_ext (decimals t = decimals u) (decimals u = decimals t))
    by (split; congruence).
  rewrite (bool_decide_ext (symbol t = symbol u) (symbol u = symbol t))
    by (split; congruence).
  rewrite (bool_decide_ext (name t = name u) (name u = name t))
    by (split; congruence).
  now rewrite (andb_comm (truthy (symbol t))), (andb_comm (truthy (name t))).
Qed.

Lemma equals_distinct_sym (h : heap) (a b : loc) (t u : Token) :
  a <> b -> h !! a = Some (OToken t) -> h !! b = Some (OToken u) ->
  equals h a b = equals h b a.
Proof.
  intros Hne Ht Hu.
  rewrite (equals_distinct h a b t u Hne Ht Hu).
  rewrite (equals_distinct h b a u t (not_eq_sym Hne) Hu Ht).
  rewrite (bool_decide_ext (chainId t = chainId u) (chainId u = chainId t))
    by (split; congruence).
  rewrite (bool_decide_ext (address t = address u) (address u = address t))
    by (split; congruence).
  now rewrite metadataChecks_sym.
Qed.

Lemma equals_true_inv (h : heap) (a b : loc) (t u : Token) :
  h !! a = Some (OToken t) -> h !! b = Some (OToken u) ->
  equals h a b = Ok true -> sameIdentity t u /\ metadataAgree t u.
Proof.
  intros Ht Hu Heq. destruct (decide (a = b)) as [->|Hne].
  - rewrite Ht in Hu. injection Hu as <-.
    split; [split; reflexivity | apply metadataAgree_refl].
  - now apply (equals_true_distinct h a b t u Hne Ht Hu).
Qed.

Lemma sortsBefore_lookup (h : heap) (a b : loc) (t u : Token) :
  h !! a = Some (OToken t) -> h !! b = Some (OToken u) ->
  sortsBefore h a b =
    if bool_decide (chainId t = chainId u) then
      if bool_decide (address t = address u) then Err IdenticalAddress
      else Ok (String.ltb (toLowerCase (address t)) (toLowerCase (address u)))
    else Err CrossChainComparison.
Proof.
  intros Ht Hu. unfold sortsBefore.
  rewrite (getToken_lookup _ _ _ Ht), (getToken_lookup _ _ _ Hu). cbn [bind].
  destruct (bool_decide (chainId t = chainId u)); [|reflexivity].
  destruct (bool_decide (address t = address u)); reflexivity.
Qed.

Lemma sortsBefore_true_inv (h : heap) (a b : loc) (t u : Token) :
  h !! a = Some (OToken t) -> h !! b = Some (OToken u) ->
  sortsBefore h a b = Ok true ->
  chainId t = chainId u /\ address t <> address u /\
  String.ltb (toLowerCase (address t)) (toLowerCase (address u)) = true.
Proof.
  intros Ht Hu. rewrite (sortsBefore_lookup h a b t u Ht Hu).
  repeat case_bool_decide; try discriminate. intros [= Hlt]. auto.
Qed.

Lemma compare_Lt_trans (s1 s2 s3 : string) :
  String.compare s1 s2 = Lt -> String.compare s2 s3 = Lt ->
  String.compare s1 s3 = Lt.
Proof.
  revert s2 s3. induction s1 as [|c1 s1 IH]; intros [|c2 s2] [|c3 s3];
    cbn [String.compare]; try discriminate; try reflexivity.
  unfold Ascii.compare.
  destruct (N.compare_spec (N_of_ascii c1) (N_of_ascii c2)) as [E12|L12|G12];
    try discriminate;
    destruct (N.compare_spec (N_of_ascii c2) (N_of_ascii c3)) as [E23|L23|G23];
    try discriminate; intros H12 H23.
  - rewrite E12, E23, N.compare_refl. eauto.
  - rewrite E12. now rewrite (proj2 (N.compare_lt_iff _ _) L23).
  - rewrite <- E23. now rewrite (proj2 (N.compare_lt_iff _ _) L12).
  - assert (N_of_ascii c1 < N_of_ascii c3)%N as L13 by lia.
    now rewrite (proj2 (N.compare_lt_iff _ _) L13).
Qed.

Lemma ltb_trans (s1 s2 s3 : string) :
  String.ltb s1 s2 = true -> String.ltb s2 s3 = true -> String.ltb s1 s3 = true.
Proof.
  unfold String.ltb. intros H12 H23.
  destruct (String.compare s1 s2) eqn:E12; try discriminate.
  destruct (String.compare s2 s3) eqn:E23; try discriminate.
  now rewrite (compare_Lt_trans s1 s2 s3 E12 E23).
Qed.

Lemma ltb_asym (s1 s2 : string) :
  String.ltb s1 s2 = true -> String.ltb s2 s1 = false /\ s1 <> s2.
Proof.
  unfold String.ltb.
  destruct (String.compare s1 s2) eqn:E; try discriminate. intros _. split.
  - now rewrite (String.compare_antisym s2 s1), E.
  - intros ->. pose proof (String.compare_antisym s2 s2) as Hanti.
    rewrite E in Hanti. discriminate Hanti.
Qed.

(** ** Token.equals as a relation *)

(** X1: two token objects with the same fields are equal: [equals]
    returns true and raises nothing, for one object compared with itself
    and for two copies alike. *)
Theorem equals_same_fields (h : heap) (a b : loc) (t : Token) :
  h !! a = Some (OToken t) -> h !! b = Some (OToken t) ->
  equals h a b = Ok true.
Proof.
  intros Ha Hb. destruct (decide (a = b)) as [->|Hne]; [apply equals_same|].
  apply (equals_true_distinct h a b t t Hne Ha Hb).
  split; [split; reflexivity | apply metadataAgree_refl].
Qed.

(** X2: [equals] is symmetric, in its result and in the invariant it
    raises: [a.equals(b)] and [b.equals(a)] have the same outcome. *)
Theorem equals_symmetric (h : heap) (a b : loc) :
  equals h a b = equals h b a.
Proof.
  destruct (decide (a = b)) as [->|Hne]; [reflexivity|].
  destruct (h !! a) as [[ca|t]|] eqn:Ha, (h !! b) as [[cb|u]|] eqn:Hb;
    try (now apply (equals_distinct_sym h a b t u));
    unfold equals, getToken;
    rewrite (bool_decide_eq_false_2 _ Hne),
            (bool_decide_eq_false_2 _ (not_eq_sym Hne)), Ha, Hb;
    reflexivity.
Qed.

(** X3: [equals] is transitive up to its metadata invariants: when
    [a.equals(b)] and [b.equals(c)] return true, [a.equals(c)] never
    returns false and never raises DECIMALS; it returns true, or raises
    SYMBOL or NAME (when [b] carries no symbol or name and those of [a]
    and [c] differ). *)
Theorem equals_chain (h : heap) (a b c : loc) (t u v : Token) :
  h !! a = Some (OToken t) -> h !! b = Some (OToken u) ->
  h !! c = Some (OToken v) ->
  equals h a b = Ok true -> equals h b c = Ok true ->
  equals h a c = Ok true \/
  equals h a c = Err (InvariantFailed "SYMBOL") \/
  equals h a c = Err (InvariantFailed "NAME").
Proof.
  intros Ht Hu Hv Hab Hbc.
  apply (equals_true_inv h a b t u Ht Hu) in Hab as [[Hc1 Ha1] [Hd1 _]].
  apply (equals_true_inv h b c u v Hu Hv) in Hbc as [[Hc2 Ha2] [Hd2 _]].
  destruct (decide (a = c)) as [->|Hne]; [left; apply equals_same|].
  rewrite (equals_distinct h a c t v Hne Ht Hv).
  rewrite (proj2 (sameIdentity_decide t v)) by (split; congruence).
  destruct (metadataChecks_cases t v)
    as [(-> & _) | [(-> & Hd) | [(-> & _) | (-> & _)]]]; cbn [bind]; auto.
  exfalso. apply Hd. congruence.
Qed.

(** X4: when the token in the middle provides a symbol and a name,
    [equals] is transitive: [a.equals(b)] and [b.equals(c)] returning true
    make [a.equals(c)] return true. *)
Theorem equals_transitive_provided (h : heap) (a b c : loc) (t u v : Token) :
  h !! a = Some (OToken t) -> h !! b = Some (OToken u) ->
  h !! c = Some (OToken v) ->
  truthy (symbol u) = true -> truthy (name u) = true ->
  equals h a b = Ok true -> equals h b c = Ok true ->
  equals h a c = Ok true.
Proof.
  intros Ht Hu Hv Hs Hn Hab Hbc.
  apply (equals_true_inv h a b t u Ht Hu) in Hab as [[Hc1 Ha1] (Hd1 & Hs1 & Hn1)].
  apply (equals_true_inv h b c u v Hu Hv) in Hbc as [[Hc2 Ha2] (Hd2 & Hs2 & Hn2)].
  destruct (decide (a = c)) as [->|Hne]; [apply equals_same|].
  apply (equals_true_distinct h a c t v Hne Ht Hv).
  split; [split; congruence|]. split; [congruence|].
  split; intros H1 H3.
  - rewrite (Hs1 H1 Hs). auto.
  - rewrite (Hn1 H1 Hn). auto.
Qed.

(** X5: which invariant [equals] raises, for two distinct objects of the
    same identity: DECIMALS when the decimals differ, whatever the symbols
    and names; SYMBOL when the decimals agree and both symbols are
    provided and differ, whatever the names; NAME when decimals and
    symbols pass and both names are provided and differ. *)
Theorem equals_error_precedence (h : heap) (a b : loc) (t u : Token) :
  a <> b -> h !! a = Some (OToken t) -> h !! b = Some (OToken u) ->
  sameIdentity t u ->
  (decimals t <> decimals u ->
   equals h a b = Err (InvariantFailed "DECIMALS")) /\
  (decimals t = decimals u ->
   truthy (symbol t) = true -> truthy (symbol u) = true ->
   symbol t <> symbol u ->
   equals h a b = Err (InvariantFailed "SYMBOL")) /\
  (decimals t = decimals u ->
   (truthy (symbol t) = true -> truthy (symbol u) = true -> symbol t = symbol u) ->
   truthy (name t) = true -> truthy (name u) = true -> name t <> name u ->
   equals h a b = Err (InvariantFailed "NAME")).
Proof.
  intros Hne Ht Hu Hid. rewrite (equals_distinct h a b t u Hne Ht Hu).
  rewrite (proj2 (sameIdentity_decide t u) Hid).
  destruct (metadataChecks_cases t u)
    as [(-> & Hd & Hs & Hn) | [(-> & Hd) | [(-> & Hd & Hs1 & Hs2 & Hs)
       | (-> & Hd & Hs & Hn1 & Hn2 & Hn)]]]; cbn [bind];
    repeat split; intros; try reflexivity; exfalso; auto.
Qed.

(** ** Token.sortsBefore as an order *)

(** X6: [sortsBefore] is asymmetric: when [a.sortsBefore(b)] returns
    true, [b.sortsBefore(a)] returns false (and raises nothing). *)
Theorem sortsBefore_asymmetric (h : heap) (a b : loc) (t u : Token) :
  h !! a = Some (OToken t) -> h !! b = Some (OToken u) ->
  sortsBefore h a b = Ok true -> sortsBefore h b a = Ok false.
Proof.
  intros Ht Hu Hab.
  apply (sortsBefore_true_inv h a b t u Ht Hu) in Hab as (Hc & Ha & Hlt).
  rewrite (sortsBefore_lookup h b a u t Hu Ht).
  rewrite (bool_decide_eq_true_2 _ (eq_sym Hc)).
  rewrite (bool_decide_eq_false_2 (address u = address t)) by congruence.
  now rewrite (proj1 (ltb_asym _ _ Hlt)).
Qed.

(** X7: [sortsBefore] is transitive: when [a.sortsBefore(b)] and
    [b.sortsBefore(c)] return true, [a.sortsBefore(c)] returns true; in
    particular it does not raise, the three tokens being on one chain and
    the addresses of [a] and [c] being different. *)
Theorem sortsBefore_transitive (h : heap) (a b c : loc) (t u v : Token) :
  h !! a = Some (OToken t) -> h !! b = Some (OToken u) ->
  h !! c = Some (OToken v) ->
  sortsBefore h a b = Ok true -> sortsBefore h b c = Ok true ->
  sortsBefore h a c = Ok true.
Proof.
  intros Ht Hu Hv Hab Hbc.
  apply (sortsBefore_true_inv h a b t u Ht Hu) in Hab as (Hc1 & _ & Hlt1).
  apply (sortsBefore_true_inv h b c u v Hu Hv) in Hbc as (Hc2 & _ & Hlt2).
  pose proof (ltb_trans _ _ _ Hlt1 Hlt2) as Hlt.
  rewrite (sortsBefore_lookup h a c t v Ht Hv).
  rewrite (bool_decide_eq_true_2 (chainId t = chainId v)) by congruence.
  rewrite (bool_decide_eq_false_2 (address t = address v)).
  - now rewrite Hlt.
  - intros Heq. apply (proj2 (ltb_asym _ _ Hlt)). now rewrite Heq.
Qed.

(** X8: [sortsBefore] returns a boolean exactly when the two tokens are
    on the same chain and have different addresses.  Whenever it returns,
    [equals] on the same two tokens returns false; whenever [equals]
    returns true, [sortsBefore] raises ADDRESSES. *)
Theorem sortsBefore_returns_iff (h : heap) (a b : loc) (t u : Token) :
  h !! a = Some (OToken t) -> h !! b = Some (OToken u) ->
  ((exists r, sortsBefore h a b = Ok r) <->
   chainId t = chainId u /\ address t <> address u) /\
  (forall r, sortsBefore h a b = Ok r -> equals h a b = Ok false) /\
  (equals h a b = Ok true -> sortsBefore h a b = Err IdenticalAddress).
Proof.
  intros Ht Hu.
  assert (forall r, sortsBefore h a b = Ok r ->
                    chainId t = chainId u /\ address t <> address u) as Hret.
  { intros r. rewrite (sortsBefore_lookup h a b t u Ht Hu).
    repeat case_bool_decide; try discriminate. auto. }
  split; [split|split].
  - intros [r Hr]. eauto.
  - intros [Hc Ha]. rewrite (sortsBefore_lookup h a b t u Ht Hu).
    rewrite (bool_decide_eq_true_2 _ Hc), (bool_decide_eq_false_2 _ Ha). eauto.
  - intros r Hr. destruct (Hret r Hr) as [Hc Ha].
    assert (a <> b) as Hne.
    { intros ->. rewrite Ht in Hu. injection Hu as ->. now apply Ha. }
    apply (equals_true_distinct h a b t u Hne Ht Hu).
    intros [_ Heq]. now apply Ha.
  - intros Heq.
    apply (equals_true_inv h a b t u Ht Hu) in Heq as [[Hc Ha] _].
    rewrite (sortsBefore_lookup h a b t u Ht Hu).
    now rewrite (bool_decide_eq_true_2 _ Hc), (bool_decide_eq_true_2 _ Ha).
Qed.

(** ** currencyEquals as a relation *)

(** X9: [currencyEquals] is reflexive and symmetric for all currencies,
    Tokens or not: a currency compared with itself gives true and raises
    nothing, and [currencyEquals(a, b)] and [currencyEquals(b, a)] have
    the same outcome, result or raised invariant. *)
Theorem currencyEquals_reflexive_symmetric (h : heap) (a b : loc) :
  currencyEquals h a a = Ok true /\
  currencyEquals h a b = currencyEquals h b a.
Proof.
  unfold currencyEquals. split.
  { destruct (instanceofToken h a); cbn [andb].
    - apply equals_same.
    - now rewrite bool_decide_eq_true_2. }
  destruct (instanceofToken h a) eqn:Ia, (instanceofToken h b) eqn:Ib;
    cbn [andb]; try reflexivity.
  - destruct (decide (a = b)) as [->|Hne]; [reflexivity|].
    unfold instanceofToken in Ia, Ib.
    destruct (h !! a) as [[ca|t]|] eqn:Ha; try discriminate.
    destruct (h !! b) as [[cb|u]|] eqn:Hb; try discriminate.
    now apply (equals_distinct_sym h a b t u).
  - f_equal. apply bool_decide_ext. split; congruence.
Qed.

(** ** The constructor and the store *)

Lemma equals_store (h h' : heap) (a b : loc) :
  h' !! a = h !! a -> h' !! b = h !! b -> equals h' a b = equals h a b.
Proof. unfold equals, getToken. now intros -> ->. Qed.

Lemma sortsBefore_store (h h' : heap) (a b : loc) :
  h' !! a = h !! a -> h' !! b = h !! b -> sortsBefore h' a b = sortsBefore h a b.
Proof. unfold sortsBefore, getToken. now intros -> ->. Qed.

Lemma currencyEquals_store (h h' : heap) (a b : loc) :
  h' !! a = h !! a -> h' !! b = h !! b ->
  currencyEquals h' a b = currencyEquals h a b.
Proof.
  intros Ha Hb. unfold currencyEquals, instanceofToken.
  now rewrite Ha, Hb, (equals_store h h' a b Ha Hb).
Qed.

Lemma lookup_alloc_old (h : heap) (o : object) (x : loc) :
  is_Some (h !! x) -> (h ++ [o]) !! x = h !! x.
Proof. intros Hx. apply lookup_app_l. now apply lookup_lt_is_Some. Qed.

Section MoreProperties.

Variable checksum : string -> string.

(** X10: a successful construction stores the chainId, decimals, symbol
    and name it was given and the address the validator returned, at a
    location that held no object before, and changes no object that
    existed. *)
Theorem Token_new_stores (c : ChainId) (a : string) (d : Z)
    (s n : option string) (h h' : heap) (l : loc) :
  Token_new checksum c a d s n h = Ok (l, h') ->
  h !! l = None /\
  (forall x o, h !! x = Some o -> h' !! x = Some o) /\
  exists t, h' !! l = Some (OToken t) /\
    chainId t = c /\ decimals t = d /\ symbol t = s /\ name t = n /\
    validateAndParseAddress checksum a = Ok (address t).
Proof.
  intros Hnew. apply Token_new_inv in Hnew as (_ & Ha & -> & ->).
  split; [now apply lookup_ge_None|]. split.
  - intros x o Hx. now apply lookup_app_l_Some.
  - eexists. split; [apply lookup_alloc|].
    unfold validateAndParseAddress. rewrite Ha. auto.
Qed.

(** X11: constructing a token changes no comparison between values that
    existed before: [equals], [sortsBefore] and [currencyEquals] on two
    existing objects give the same outcome in the store after the
    construction as in the store before it. *)
Theorem Token_new_frame (c : ChainId) (a : string) (d : Z)
    (s n : option string) (h h' : heap) (l x y : loc) :
  Token_new checksum c a d s n h = Ok (l, h') ->
  is_Some (h !! x) -> is_Some (h !! y) ->
  equals h' x y = equals h x y /\
  sortsBefore h' x y = sortsBefore h x y /\
  currencyEquals h' x y = currencyEquals h x y.
Proof.
  intros Hnew Hx Hy. apply Token_new_inv in Hnew as (_ & _ & -> & ->).
  pose proof (lookup_alloc_old h (OToken (mkToken (mkCurrency d s n) c
                (checksum (toLowerCase a)))) x Hx) as Ex.
  pose proof (lookup_alloc_old h (OToken (mkToken (mkCurrency d s n) c
                (checksum (toLowerCase a)))) y Hy) as Ey.
  split; [|split].
  - now apply equals_store.
  - now apply sortsBefore_store.
  - now apply currencyEquals_store.
Qed.

(** X12: the construction succeeds exactly when the decimals are in the
    permitted range and the address is well formed; decimals out of range
    are reported first, as InvalidDecimals, whatever the address is, and
    no other failure than InvalidDecimals and InvalidAddress occurs. *)
Theorem Token_new_outcome (c : ChainId) (a : string) (d : Z)
    (s n : option string) (h : heap) :
  ((exists l h', Token_new checksum c a d s n h = Ok (l, h')) <->
   0 <= d <= 255 /\ isAddress a = true) /\
  (~ 0 <= d <= 255 -> Token_new checksum c a d s n h = Err InvalidDecimals) /\
  (forall e, Token_new checksum c a d s n h = Err e ->
             e = InvalidDecimals \/ e = InvalidAddress).
Proof.
  split; [split|split].
  - intros (l & h' & Hnew). now apply Token_new_inv in Hnew as (Hd & Ha & _).
  - intros [Hd Ha]. rewrite Token_new_Ok by assumption. eauto.
  - intros Hd. unfold Token_new, Currency_constructor.
    replace ((0 <=? d) && (d <=? 255)) with false; [reflexivity|].
    symmetry. apply andb_false_iff.
    destruct (Z.leb_spec 0 d); [|auto]. destruct (Z.leb_spec d 255); [|auto].
    exfalso. apply Hd. lia.
  - intros e. unfold Token_new, Currency_constructor, validateAndParseAddress.
    destruct ((0 <=? d) && (d <=? 255)); cbn [bind]; [|intros [= <-]; auto].
    destruct (isAddress a); cbn [bind]; [discriminate|intros [= <-]; auto].
Qed.

(** X13: two tokens constructed one after the other on the same chain
    from addresses that are equal up to letter casing are two objects
    with one address: [sortsBefore] raises ADDRESSES in both directions
    and [equals] does not return false, whatever their metadata. *)
Theorem Token_new_same_address (c : ChainId) (a b : string) (d1 d2 : Z)
    (s1 n1 s2 n2 : option string) (h0 h1 h2 : heap) (l1 l2 : loc) :
  Token_new checksum c a d1 s1 n1 h0 = Ok (l1, h1) ->
  Token_new checksum c b d2 s2 n2 h1 = Ok (l2, h2) ->
  toLowerCase a = toLowerCase b ->
  l1 <> l2 /\
  sortsBefore h2 l1 l2 = Err IdenticalAddress /\
  sortsBefore h2 l2 l1 = Err IdenticalAddress /\
  equals h2 l1 l2 <> Ok false.
Proof.
  intros H1 H2 Hab.
  apply Token_new_inv in H1 as (_ & _ & -> & ->).
  apply Token_new_inv in H2 as (_ & _ & -> & ->).
  set (t := mkToken (mkCurrency d1 s1 n1) c (checksum (toLowerCase a))).
  set (u := mkToken (mkCurrency d2 s2 n2) c (checksum (toLowerCase b))).
  assert (length h0 <> length (h0 ++ [OToken t])) as Hne.
  { rewrite length_app. cbn. lia. }
  assert (((h0 ++ [OToken t]) ++ [OToken u]) !! length h0 = Some (OToken t)) as Ht.
  { apply lookup_app_l_Some, lookup_alloc. }
  assert (((h0 ++ [OToken t]) ++ [OToken u]) !! length (h0 ++ [OToken t])
          = Some (OToken u)) as Hu by apply lookup_alloc.
  assert (address t = address u) as Ha by (cbn; now rewrite Hab).
  split; [exact Hne|].
  rewrite (sortsBefore_lookup _ _ _ t u Ht Hu), (sortsBefore_lookup _ _ _ u t Hu Ht).
  rewrite !bool_decide_eq_true_2 by (reflexivity || congruence).
  split; [reflexivity|]. split; [reflexivity|].
  intros Hfalse.
  apply (equals_true_distinct _ _ _ t u Hne Ht Hu) in Hfalse.
  apply Hfalse. split; [reflexivity | exact Ha].
Qed.

(** The canonical form of an address differs from the address in letter
    casing only. *)
Hypothesis checksum_casing :
  forall a, isAddress a = true ->
            toLowerCase (checksum (toLowerCase a)) = toLowerCase a.

(** X14: the order of two constructed tokens is the order of the
    addresses they were constructed from, compared without regard to
    letter casing: for addresses that differ beyond casing, whatever the
    casing rule of the validator, [sortsBefore] returns the lexicographic
    comparison of the two lower-cased inputs. *)
Theorem sortsBefore_constructed (c : ChainId) (a b : string) (d1 d2 : Z)
    (s1 n1 s2 n2 : option string) (h0 h1 h2 : heap) (l1 l2 : loc) :
  Token_new checksum c a d1 s1 n1 h0 = Ok (l1, h1) ->
  Token_new checksum c b d2 s2 n2 h1 = Ok (l2, h2) ->
  toLowerCase a <> toLowerCase b ->
  sortsBefore h2 l1 l2 = Ok (String.ltb (toLowerCase a) (toLowerCase b)) /\
  sortsBefore h2 l2 l1 = Ok (String.ltb (toLowerCase b) (toLowerCase a)) /\
  equals h2 l1 l2 = Ok false.
Proof.
  intros H1 H2 Hab.
  apply Token_new_inv in H1 as (_ & Va & -> & ->).
  apply Token_new_inv in H2 as (_ & Vb & -> & ->).
  set (t := mkToken (mkCurrency d1 s1 n1) c (checksum (toLowerCase a))).
  set (u := mkToken (mkCurrency d2 s2 n2) c (checksum (toLowerCase b))).
  assert (length h0 <> length (h0 ++ [OToken t])) as Hne.
  { rewrite length_app. cbn. lia. }
  assert (((h0 ++ [OToken t]) ++ [OToken u]) !! length h0 = Some (OToken t)) as Ht.
  { apply lookup_app_l_Some, lookup_alloc. }
  assert (((h0 ++ [OToken t]) ++ [OToken u]) !! length (h0 ++ [OToken t])
          = Some (OToken u)) as Hu by apply lookup_alloc.
  assert (toLowerCase (address t) = toLowerCase a) as Ea
    by (cbn; now apply checksum_casing).
  assert (toLowerCase (address u) = toLowerCase b) as Eb
    by (cbn; now apply checksum_casing).
  assert (address t <> address u) as Ha by congruence.
  rewrite (sortsBefore_lookup _ _ _ t u Ht Hu), (sortsBefore_lookup _ _ _ u t Hu Ht).
  rewrite (bool_decide_eq_true_2 (chainId t = chainId u)) by reflexivity.
  rewrite (bool_decide_eq_true_2 (chainId u = chainId t)) by reflexivity.
  rewrite (bool_decide_eq_false_2 _ Ha).
  rewrite (bool_decide_eq_false_2 (address u = address t)) by congruence.
  rewrite Ea, Eb. split; [reflexivity|]. split; [reflexivity|].
  apply (equals_true_distinct _ _ _ t u Hne Ht Hu). intros [_ Heq]. now apply Ha.
Qed.

End MoreProperties.

(** ** Object literals *)

Lemma tableFrom_lookup_notin (keys : list ChainId) (n : loc)
    (o : gmap ChainId loc) (k : ChainId) :
  k ∉ keys -> tableFrom n keys o !! k = o !! k.
Proof.
  revert n o. induction keys as [|k' keys IH]; intros n o Hk; [reflexivity|].
  apply not_elem_of_cons in Hk as [Hne Hk]. cbn [tableFrom].
  rewrite IH by assumption. now apply lookup_insert_ne.
Qed.

Lemma tableFrom_lookup (keys : list ChainId) (n : loc) (o : gmap ChainId loc)
    (i : nat) (k : ChainId) :
  NoDup keys -> keys !! i = Some k ->
  tableFrom n keys o !! k = Some (n + i)%nat.
Proof.
  revert n o i. induction keys as [|k' keys IH]; intros n o i Hnd Hi;
    [discriminate|].
  apply NoDup_cons in Hnd as [Hk' Hnd]. cbn [tableFrom].
  destruct i as [|i]; cbn in Hi.
  - injection Hi as ->. rewrite tableFrom_lookup_notin by assumption.
    rewrite lookup_insert_eq. f_equal. lia.
  - rewrite (IH (S n) _ i Hnd Hi). f_equal. lia.
Qed.

Lemma tableFrom_lookup_inv (keys : list ChainId) (n : loc) (k : ChainId) (l : loc) :
  tableFrom n keys ∅ !! k = Some l -> (n <= l < n + length keys)%nat.
Proof.
  enough (forall (o : gmap ChainId loc) m, (m <= n)%nat ->
            (forall k' l', o !! k' = Some l' -> (m <= l' < n)%nat) ->
            tableFrom n keys o !! k = Some l -> (m <= l < n + length keys)%nat) as H.
  { intros Hl. apply (H ∅ n); [lia | | exact Hl].
    intros k' l'. rewrite lookup_empty. discriminate. }
  revert n. induction keys as [|k' keys IH]; intros n o m Hm Ho Hl; cbn in *.
  - apply Ho in Hl. lia.
  - apply (IH (S n) _ m) in Hl; [lia | lia |].
    intros k'' l''. rewrite lookup_insert. case_decide.
    + intros [= <-]. lia.
    + intros Hk. apply Ho in Hk. lia.
Qed.

Lemma objectLiteral_allocs (properties : list (ChainId * M loc))
    (objects : list object) :
  Forall2 (fun p o => forall h, p.2 h = alloc o h) properties objects ->
  forall (o : gmap ChainId loc) (h : heap),
    objectLiteral properties o h =
      Ok (tableFrom (length h) properties.*1 o, h ++ objects).
Proof.
  induction 1 as [|[k e] ob rest objs He _ IH]; intros o h.
  - cbn. unfold ret. now rewrite app_nil_r.
  - cbn [objectLiteral]. unfold bindM. cbn in He. rewrite He. unfold alloc.
    rewrite IH, length_app, <- app_assoc. cbn. do 3 f_equal. lia.
Qed.

Lemma objectOf_lookup_elem {K : Type} `{Countable K} {V : Type}
    (properties : list (K * V)) (k : K) (v : V) :
  objectOf properties !! k = Some v -> (k, v) ∈ properties.
Proof.
  unfold objectOf.
  enough (forall o : gmap K V,
            fold_left (fun o p => <[p.1:=p.2]> o) properties o !! k = Some v ->
            (k, v) ∈ properties \/ o !! k = Some v) as Hgen.
  { intros Hl. destruct (Hgen ∅ Hl) as [?|Hempty]; [assumption|].
    rewrite lookup_empty in Hempty. discriminate. }
  induction properties as [|[k' v'] rest IH]; intros o Hl; [now right|].
  cbn [fold_left] in Hl. destruct (IH _ Hl) as [Hin|Ho].
  - left. now apply elem_of_cons; right.
  - cbn in Ho. rewrite lookup_insert in Ho. case_decide.
    + injection Ho as <-. subst k'. left. apply elem_of_cons. now left.
    + now right.
Qed.

Lemma NoDup_lowerAddresses (entries : list (string * string))
    (n1 n2 a1 a2 : string) :
  NoDup (lowerAddresses entries) ->
  (n1, a1) ∈ entries -> (n2, a2) ∈ entries -> n1 <> n2 ->
  toLowerCase a1 <> toLowerCase a2.
Proof.
  unfold lowerAddresses.
  induction entries as [|[n a] rest IH]; intros Hnd H1 H2 Hne Heq.
  { now apply elem_of_nil in H1. }
  rewrite fmap_cons in Hnd. apply NoDup_cons in Hnd as [Hnotin Hnd].
  apply elem_of_cons in H1 as [[= -> ->]|H1];
    apply elem_of_cons in H2 as [[= -> ->]|H2].
  - now apply Hne.
  - apply Hnotin. cbn. rewrite Heq.
    apply (list_elem_of_fmap_2 (fun p => toLowerCase p.2) rest (n2, a2) H2).
  - apply Hnotin. cbn. rewrite <- Heq.
    apply (list_elem_of_fmap_2 (fun p => toLowerCase p.2) rest (n1, a1) H1).
  - now apply (IH Hnd H1 H2 Hne).
Qed.

(** What the checks below establish for the registry of one chain: its
    token and pair addresses are well formed and pairwise different up to
    letter casing. *)
Lemma TOKENS_checked (k : ChainId) (reg : ChainRegistry) :
  TOKENS !! k = Some reg ->
  exists tokens pairs : list (string * string),
    (forall n a, ADDRESSES (Tokens reg) !! n = Some a -> (n, a) ∈ tokens) /\
    (forall n a, Pair (Tokens reg) !! n = Some a -> (n, a) ∈ pairs) /\
    NoDup (lowerAddresses tokens ++ lowerAddresses pairs) /\
    Forall (fun p => isAddress p.2 = true) (tokens ++ pairs).
Proof.
  intros Hk. apply objectOf_lookup_elem in Hk.
  apply elem_of_cons in Hk as [[= -> ->]|Hk];
    [|apply elem_of_cons in Hk as [[= -> ->]|Hk];
      [|now apply elem_of_nil in Hk]];
    cbn [Tokens ADDRESSES Pair];
    (eexists _, _; split; [intros n a; apply objectOf_lookup_elem|];
     split; [intros n a; apply objectOf_lookup_elem|]; split;
     [ apply (bool_decide_unpack _); vm_compute; exact I
     | apply (bool_decide_unpack _); vm_compute; exact I ]).
Qed.

Lemma WETH_keys_NoDup : NoDup WETH_keys.
Proof. apply (bool_decide_unpack _). vm_compute. exact I. Qed.

Lemma WETH_keys_lookup (k : ChainId) : WETH_keys !! ChainId_index k = Some k.
Proof. destruct k; reflexivity. Qed.

Section Tables.

Variable checksum : string -> string.

Lemma WETH_run (h0 : heap) :
  WETH checksum h0 =
    Ok (tableFrom (length h0) WETH_keys ∅, h0 ++ WETH_objects checksum).
Proof.
  unfold WETH.
  rewrite (objectLiteral_allocs _ (WETH_objects checksum)); [reflexivity|].
  let objs := eval vm_compute in (WETH_objects checksum) in
  change (WETH_objects checksum) with objs.
  repeat (constructor; [intros h; reflexivity|]). constructor.
Qed.

Lemma WETH_tokens_wrapped (h0 : heap) :
  tableOk (tableFrom (length h0) WETH_keys ∅) (h0 ++ WETH_objects checksum).
Proof.
  pose proof (WETH_run h0) as Hrun. unfold WETH in Hrun.
  edestruct objectLiteral_wrapped as (tbl & h & Hrun' & Hok & _);
    [ | | rewrite Hrun in Hrun'; injection Hrun' as <- <-; exact Hok ].
  - repeat (constructor;
              [do 3 eexists; (split; [|reflexivity]); reflexivity|]).
    constructor.
  - intros k l. rewrite lookup_empty. discriminate.
Qed.

(** X15: in the [WETH] table, entries of different chains are never
    equal: for two keys, [equals] on the two entries returns true when
    the keys are the same and false when they differ, and raises nothing,
    also for the chains that share one address; [sortsBefore] across two
    different keys raises CHAIN_IDS. *)
Theorem WETH_entries_compare (h0 : heap) :
  exists tbl h, WETH checksum h0 = Ok (tbl, h) /\
    forall k1 k2 l1 l2, tbl !! k1 = Some l1 -> tbl !! k2 = Some l2 ->
      (k1 = k2 -> equals h l1 l2 = Ok true) /\
      (k1 <> k2 -> equals h l1 l2 = Ok false /\
                   sortsBefore h l1 l2 = Err CrossChainComparison).
Proof.
  eexists _, _. split; [apply WETH_run|].
  intros k1 k2 l1 l2 H1 H2.
  destruct (WETH_tokens_wrapped h0 k1 l1 H1) as (t & Ht & Hc1 & _).
  destruct (WETH_tokens_wrapped h0 k2 l2 H2) as (u & Hu & Hc2 & _).
  split.
  - intros ->. rewrite H1 in H2. injection H2 as <-. apply equals_same.
  - intros Hne. assert (chainId t <> chainId u) as Hc by congruence.
    assert (l1 <> l2) as Hl.
    { intros ->. rewrite Ht in Hu. injection Hu as ->. now apply Hc. }
    split.
    + apply (equals_true_distinct _ _ _ t u Hl Ht Hu). intros [Hc' _]. now apply Hc.
    + rewrite (sortsBefore_lookup _ _ _ t u Ht Hu).
      now rewrite (bool_decide_eq_false_2 _ Hc).
Qed.

(** X16: the construction of the [WETH] table allocates eighteen new
    objects, one for each chain, and changes nothing else: the objects
    that existed are unchanged, every entry is an object that did not
    exist before, and the entry of the i-th chain of the source is the
    i-th new object. *)
Theorem WETH_allocates (h0 : heap) :
  exists tbl h, WETH checksum h0 = Ok (tbl, h) /\
    (forall x o, h0 !! x = Some o -> h !! x = Some o) /\
    length h = (length h0 + 18)%nat /\
    (forall k l, tbl !! k = Some l -> h0 !! l = None /\ is_Some (h !! l)) /\
    (forall k, tbl !! k = Some (length h0 + ChainId_index k)%nat).
Proof.
  eexists _, _. split; [apply WETH_run|].
  assert (length (WETH_objects checksum) = 18%nat) as Hlen by reflexivity.
  split; [|split; [|split]].
  - intros x o Hx. now apply lookup_app_l_Some.
  - rewrite length_app, Hlen. reflexivity.
  - intros k l Hl. apply tableFrom_lookup_inv in Hl. cbn [length WETH_keys] in Hl.
    split; [apply lookup_ge_None; lia|].
    apply lookup_lt_is_Some. rewrite length_app, Hlen. lia.
  - intros k. apply tableFrom_lookup; [apply WETH_keys_NoDup | apply WETH_keys_lookup].
Qed.

(** X17: the two tables agree: for every chain of [TOKENS], the registry
    has an address under the name WETH, and the token of that chain in the
    [WETH] table carries the canonical form of that address. *)
Theorem TOKENS_WETH_agree (h0 : heap) (k : ChainId) (reg : ChainRegistry) :
  TOKENS !! k = Some reg ->
  exists a tbl h l t,
    ADDRESSES (Tokens reg) !! "WETH" = Some a /\
    WETH checksum h0 = Ok (tbl, h) /\
    tbl !! k = Some l /\ h !! l = Some (OToken t) /\
    validateAndParseAddress checksum a = Ok (address t).
Proof.
  intros Hk.
  assert (forall i, (h0 ++ WETH_objects checksum) !! (length h0 + i)%nat
                    = WETH_objects checksum !! i) as Hobj.
  { intros i. rewrite lookup_app_r by lia. f_equal. lia. }
  apply objectOf_lookup_elem in Hk.
  apply elem_of_cons in Hk as [[= -> ->]|Hk];
    [|apply elem_of_cons in Hk as [[= -> ->]|Hk];
      [|now apply elem_of_nil in Hk]];
    cbn [Tokens ADDRESSES].
  - eexists _, _, _, _, _. split; [vm_compute; reflexivity|].
    split; [apply WETH_run|].
    split; [apply (tableFrom_lookup _ _ _ 17); [apply WETH_keys_NoDup|reflexivity]|].
    split; [rewrite Hobj; reflexivity|]. reflexivity.
  - eexists _, _, _, _, _. split; [vm_compute; reflexivity|].
    split; [apply WETH_run|].
    split; [apply (tableFrom_lookup _ _ _ 16); [apply WETH_keys_NoDup|reflexivity]|].
    split; [rewrite Hobj; reflexivity|]. reflexivity.
Qed.

End Tables.

(** ** The TOKENS registry *)

(** X18: in the registry of every chain of [TOKENS], every token address
    and every pair address is a well-formed address, two different token
    names have addresses that differ beyond letter casing, so do two
    different pair names, and no pair address is a token address. *)
Theorem TOKENS_addresses (k : ChainId) (reg : ChainRegistry) :
  TOKENS !! k = Some reg ->
  (forall n a, ADDRESSES (Tokens reg) !! n = Some a -> isAddress a = true) /\
  (forall n a, Pair (Tokens reg) !! n = Some a -> isAddress a = true) /\
  (forall n1 n2 a1 a2,
     ADDRESSES (Tokens reg) !! n1 = Some a1 ->
     ADDRESSES (Tokens reg) !! n2 = Some a2 ->
     n1 <> n2 -> toLowerCase a1 <> toLowerCase a2) /\
  (forall n1 n2 a1 a2,
     Pair (Tokens reg) !! n1 = Some a1 -> Pair (Tokens reg) !! n2 = Some a2 ->
     n1 <> n2 -> toLowerCase a1 <> toLowerCase a2) /\
  (forall n1 n2 a1 a2,
     ADDRESSES (Tokens reg) !! n1 = Some a1 -> Pair (Tokens reg) !! n2 = Some a2 ->
     toLowerCase a1 <> toLowerCase a2).
Proof.
  intros Hk.
  destruct (TOKENS_checked k reg Hk) as (tokens & pairs & Ht & Hp & Hnd & Hwf).
  apply NoDup_app in Hnd as (Hndt & Hdisj & Hndp).
  rewrite Forall_forall in Hwf.
  repeat split.
  - intros n a Ha. apply (Hwf (n, a)). apply elem_of_app. left. now apply Ht.
  - intros n a Ha. apply (Hwf (n, a)). apply elem_of_app. right. now apply Hp.
  - intros n1 n2 a1 a2 H1 H2.
    apply (NoDup_lowerAddresses tokens n1 n2 a1 a2 Hndt); auto.
  - intros n1 n2 a1 a2 H1 H2.
    apply (NoDup_lowerAddresses pairs n1 n2 a1 a2 Hndp); auto.
  - intros n1 n2 a1 a2 H1 H2 Heq.
    apply (Hdisj (toLowerCase a1)).
    + apply (list_elem_of_fmap_2 (fun p => toLowerCase p.2) tokens (n1, a1)).
      now apply Ht.
    + rewrite Heq.
      apply (list_elem_of_fmap_2 (fun p => toLowerCase p.2) pairs (n2, a2)).
      now apply Hp.
Qed.

Section Registry.

Variable checksum : string -> string.

Hypothesis checksum_casing :
  forall a, isAddress a = true ->
            toLowerCase (checksum (toLowerCase a)) = toLowerCase a.

(** X19: tokens built from two different names of the registry of a
    chain can always be ordered: with decimals in the permitted range the
    two constructions succeed, [equals] on the two tokens returns false,
    and [sortsBefore] returns true in exactly one direction and false in
    the other. *)
Theorem TOKENS_pair_order (k : ChainId) (reg : ChainRegistry)
    (n1 n2 a1 a2 : string) (d1 d2 : Z) (s1 m1 s2 m2 : option string) (h0 : heap) :
  TOKENS !! k = Some reg ->
  ADDRESSES (Tokens reg) !! n1 = Some a1 ->
  ADDRESSES (Tokens reg) !! n2 = Some a2 ->
  n1 <> n2 -> 0 <= d1 <= 255 -> 0 <= d2 <= 255 ->
  exists l1 h1 l2 h2,
    Token_new checksum k a1 d1 s1 m1 h0 = Ok (l1, h1) /\
    Token_new checksum k a2 d2 s2 m2 h1 = Ok (l2, h2) /\
    equals h2 l1 l2 = Ok false /\
    ((sortsBefore h2 l1 l2 = Ok true /\ sortsBefore h2 l2 l1 = Ok false) \/
     (sortsBefore h2 l1 l2 = Ok false /\ sortsBefore h2 l2 l1 = Ok true)).
Proof.
  intros Hk H1 H2 Hne Hd1 Hd2.
  destruct (TOKENS_checked k reg Hk) as (tokens & pairs & Ht & _ & Hnd & Hwf).
  apply NoDup_app in Hnd as (Hndt & _ & _). rewrite Forall_forall in Hwf.
  assert (isAddress a1 = true) as V1.
  { apply (Hwf (n1, a1)). apply elem_of_app. left. now apply Ht. }
  assert (isAddress a2 = true) as V2.
  { apply (Hwf (n2, a2)). apply elem_of_app. left. now apply Ht. }
  assert (toLowerCase a1 <> toLowerCase a2) as Hlow.
  { apply (NoDup_lowerAddresses tokens n1 n2 a1 a2 Hndt); auto. }
  set (t := mkToken (mkCurrency d1 s1 m1) k (checksum (toLowerCase a1))).
  set (u := mkToken (mkCurrency d2 s2 m2) k (checksum (toLowerCase a2))).
  exists (length h0), (h0 ++ [OToken t]), (length (h0 ++ [OToken t])),
         ((h0 ++ [OToken t]) ++ [OToken u]).
  split; [now apply Token_new_Ok|]. split; [now apply Token_new_Ok|].
  assert (length h0 <> length (h0 ++ [OToken t])) as Hl.
  { rewrite length_app. cbn. lia. }
  assert (((h0 ++ [OToken t]) ++ [OToken u]) !! length h0 = Some (OToken t)) as Lt.
  { apply lookup_app_l_Some, lookup_alloc. }
  assert (((h0 ++ [OToken t]) ++ [OToken u]) !! length (h0 ++ [OToken t])
          = Some (OToken u)) as Lu by apply lookup_alloc.
  assert (toLowerCase (address t) <> toLowerCase (address u)) as Hlow'.
  { cbn. now rewrite !checksum_casing. }
  assert (address t <> address u) as Ha by congruence.
  split.
  - apply (equals_true_distinct _ _ _ t u Hl Lt Lu). intros [_ Heq]. now apply Ha.
  - rewrite (sortsBefore_lookup _ _ _ t u Lt Lu), (sortsBefore_lookup _ _ _ u t Lu Lt).
    rewrite (bool_decide_eq_true_2 (chainId t = chainId u)) by reflexivity.
    rewrite (bool_decide_eq_true_2 (chainId u = chainId t)) by reflexivity.
    rewrite (bool_decide_eq_false_2 _ Ha).
    rewrite (bool_decide_eq_false_2 (address u = address t)) by congruence.
    destruct (ltb_trichotomy _ _ Hlow') as [[-> ->] | [-> ->]]; auto.
Qed.

End Registry.

(** ** The further properties at concrete inputs *)

Lemma equals_same_fields_witness :
  let h := [OToken weth; OToken weth] in
  h !! 0%nat = Some (OToken weth) /\ h !! 1%nat = Some (OToken weth) /\
  equals h 0%nat 1%nat = Ok true.
Proof.
  intros h.
  assert (h !! 0%nat = Some (OToken weth)) as H0 by reflexivity.
  assert (h !! 1%nat = Some (OToken weth)) as H1 by reflexivity.
  repeat (split; [assumption|]).
  exact (equals_same_fields h 0%nat 1%nat weth H0 H1).
Defined.

Lemma equals_chain_witness :
  let h := [OToken weth; OToken wethPlain; OToken wethOther] in
  h !! 0%nat = Some (OToken weth) /\ h !! 1%nat = Some (OToken wethPlain) /\
  h !! 2%nat = Some (OToken wethOther) /\
  equals h 0%nat 1%nat = Ok true /\ equals h 1%nat 2%nat = Ok true /\
  equals h 0%nat 2%nat = Err (InvariantFailed "SYMBOL") /\
  (equals h 0%nat 2%nat = Ok true \/
   equals h 0%nat 2%nat = Err (InvariantFailed "SYMBOL") \/
   equals h 0%nat 2%nat = Err (InvariantFailed "NAME")).
Proof.
  intros h.
  assert (h !! 0%nat = Some (OToken weth)) as H0 by reflexivity.
  assert (h !! 1%nat = Some (OToken wethPlain)) as H1 by reflexivity.
  assert (h !! 2%nat = Some (OToken wethOther)) as H2 by reflexivity.
  assert (equals h 0%nat 1%nat = Ok true) as E01 by reflexivity.
  assert (equals h 1%nat 2%nat = Ok true) as E12 by reflexivity.
  assert (equals h 0%nat 2%nat = Err (InvariantFailed "SYMBOL")) as E02
    by reflexivity.
  repeat (split; [assumption|]).
  exact (equals_chain h 0%nat 1%nat 2%nat weth wethPlain wethOther
           H0 H1 H2 E01 E12).
Defined.

Lemma equals_transitive_provided_witness :
  let h := [OToken wethPlain; OToken weth; OToken wethNoSymbol] in
  h !! 0%nat = Some (OToken wethPlain) /\ h !! 1%nat = Some (OToken weth) /\
  h !! 2%nat = Some (OToken wethNoSymbol) /\
  truthy (symbol weth) = true /\ truthy (name weth) = true /\
  equals h 0%nat 1%nat = Ok true /\ equals h 1%nat 2%nat = Ok true /\
  equals h 0%nat 2%nat = Ok true.
Proof.
  intros h.
  assert (h !! 0%nat = Some (OToken wethPlain)) as H0 by reflexivity.
  assert (h !! 1%nat = Some (OToken weth)) as H1 by reflexivity.
  assert (h !! 2%nat = Some (OToken wethNoSymbol)) as H2 by reflexivity.
  assert (truthy (symbol weth) = true) as Hs by reflexivity.
  assert (truthy (name weth) = true) as Hn by reflexivity.
  assert (equals h 0%nat 1%nat = Ok true) as E01 by reflexivity.
  assert (equals h 1%nat 2%nat = Ok true) as E12 by reflexivity.
  repeat (split; [assumption|]).
  exact (equals_transitive_provided h 0%nat 1%nat 2%nat wethPlain weth
           wethNoSymbol H0 H1 H2 Hs Hn E01 E12).
Defined.

Lemma equals_error_precedence_witness :
  let h := [OToken weth; OToken wethRopsten; OToken wethOther] in
  let t6 := mkToken (mkCurrency 6 (Some "W") None) MAINNET wethAddressLower in
  let h' := [OToken weth; OToken t6] in
  0%nat <> 2%nat /\ h !! 0%nat = Some (OToken weth) /\
  h !! 2%nat = Some (OToken wethOther) /\ sameIdentity weth wethOther /\
  decimals weth = decimals wethOther /\ symbol weth <> symbol wethOther /\
  name weth <> name wethOther /\
  equals h 0%nat 2%nat = Err (InvariantFailed "SYMBOL") /\
  0%nat <> 1%nat /\ h' !! 0%nat = Some (OToken weth) /\
  h' !! 1%nat = Some (OToken t6) /\ sameIdentity weth t6 /\
  decimals weth <> decimals t6 /\ symbol weth <> symbol t6 /\
  equals h' 0%nat 1%nat = Err (InvariantFailed "DECIMALS").
Proof.
  intros h t6 h'.
  assert (0%nat <> 2%nat) as N02 by discriminate.
  assert (h !! 0%nat = Some (OToken weth)) as H0 by reflexivity.
  assert (h !! 2%nat = Some (OToken wethOther)) as H2 by reflexivity.
  assert (sameIdentity weth wethOther) as Hid by (split; reflexivity).
  assert (decimals weth = decimals wethOther) as Hd by reflexivity.
  assert (symbol weth <> symbol wethOther) as Hs by discriminate.
  assert (name weth <> name wethOther) as Hn by discriminate.
  assert (0%nat <> 1%nat) as N01 by discriminate.
  assert (h' !! 0%nat = Some (OToken weth)) as H0' by reflexivity.
  assert (h' !! 1%nat = Some (OToken t6)) as H1' by reflexivity.
  assert (sameIdentity weth t6) as Hid' by (split; reflexivity).
  assert (decimals weth <> decimals t6) as Hd' by discriminate.
  assert (symbol weth <> symbol t6) as Hs' by discriminate.
  split; [exact N02|]. split; [exact H0|]. split; [exact H2|].
  split; [exact Hid|]. split; [exact Hd|]. split; [exact Hs|].
  split; [exact Hn|]. split.
  { exact (proj1 (proj2 (equals_error_precedence h 0%nat 2%nat weth wethOther
                           N02 H0 H2 Hid)) Hd eq_refl eq_refl Hs). }
  split; [exact N01|]. split; [exact H0'|]. split; [exact H1'|].
  split; [exact Hid'|]. split; [exact Hd'|]. split; [exact Hs'|].
  exact (proj1 (equals_error_precedence h' 0%nat 1%nat weth t6
                  N01 H0' H1' Hid') Hd').
Defined.

Lemma sortsBefore_asymmetric_witness :
  let h := [OToken dai; OToken weth] in
  h !! 0%nat = Some (OToken dai) /\ h !! 1%nat = Some (OToken weth) /\
  sortsBefore h 0%nat 1%nat = Ok true /\ sortsBefore h 1%nat 0%nat = Ok false.
Proof.
  intros h.
  assert (h !! 0%nat = Some (OToken dai)) as H0 by reflexivity.
  assert (h !! 1%nat = Some (OToken weth)) as H1 by reflexivity.
  assert (sortsBefore h 0%nat 1%nat = Ok true) as S01 by reflexivity.
  repeat (split; [assumption|]).
  exact (sortsBefore_asymmetric h 0%nat 1%nat dai weth H0 H1 S01).
Defined.

Lemma sortsBefore_transitive_witness :
  let h := [OToken dai; OToken weth; OToken usdt] in
  h !! 0%nat = Some (OToken dai) /\ h !! 1%nat = Some (OToken weth) /\
  h !! 2%nat = Some (OToken usdt) /\
  sortsBefore h 0%nat 1%nat = Ok true /\ sortsBefore h 1%nat 2%nat = Ok true /\
  sortsBefore h 0%nat 2%nat = Ok true.
Proof.
  intros h.
  assert (h !! 0%nat = Some (OToken dai)) as H0 by reflexivity.
  assert (h !! 1%nat = Some (OToken weth)) as H1 by reflexivity.
  assert (h !! 2%nat = Some (OToken usdt)) as H2 by reflexivity.
  assert (sortsBefore h 0%nat 1%nat = Ok true) as S01 by reflexivity.
  assert (sortsBefore h 1%nat 2%nat = Ok true) as S12 by reflexivity.
  repeat (split; [assumption|]).
  exact (sortsBefore_transitive h 0%nat 1%nat 2%nat dai weth usdt
           H0 H1 H2 S01 S12).
Defined.

Lemma sortsBefore_returns_iff_witness :
  let h := [OToken dai; OToken weth; OToken weth] in
  h !! 0%nat = Some (OToken dai) /\ h !! 1%nat = Some (OToken weth) /\
  h !! 2%nat = Some (OToken weth) /\
  sortsBefore h 0%nat 1%nat = Ok true /\ equals h 0%nat 1%nat = Ok false /\
  equals h 1%nat 2%nat = Ok true /\
  sortsBefore h 1%nat 2%nat = Err IdenticalAddress.
Proof.
  intros h.
  assert (h !! 0%nat = Some (OToken dai)) as H0 by reflexivity.
  assert (h !! 1%nat = Some (OToken weth)) as H1 by reflexivity.
  assert (h !! 2%nat = Some (OToken weth)) as H2 by reflexivity.
  assert (sortsBefore h 0%nat 1%nat = Ok true) as S01 by reflexivity.
  assert (equals h 1%nat 2%nat = Ok true) as E12 by reflexivity.
  split; [exact H0|]. split; [exact H1|]. split; [exact H2|].
  split; [exact S01|]. split.
  { exact (proj1 (proj2 (sortsBefore_returns_iff h 0%nat 1%nat dai weth H0 H1))
             true S01). }
  split; [exact E12|].
  exact (proj2 (proj2 (sortsBefore_returns_iff h 1%nat 2%nat weth weth H1 H2)) E12).
Defined.

Lemma Token_new_stores_witness :
  let h := [OCurrency ether] in
  Token_new upperCaseDigits SCROLL usdcScroll 6 (Some "USDC") None h =
    Ok (1%nat, h ++ [OToken (mkToken (mkCurrency 6 (Some "USDC") None) SCROLL
                               "0x06EFDBFF2A14A7C8E15944D1F4A48F9F95F663A4")]) /\
  h !! 1%nat = None /\
  exists t, (h ++ [OToken (mkToken (mkCurrency 6 (Some "USDC") None) SCROLL
                             "0x06EFDBFF2A14A7C8E15944D1F4A48F9F95F663A4")])
              !! 1%nat = Some (OToken t) /\
    chainId t = SCROLL /\ decimals t = 6 /\ symbol t = Some "USDC" /\
    name t = None /\
    validateAndParseAddress upperCaseDigits usdcScroll = Ok (address t).
Proof.
  intros h.
  assert (Token_new upperCaseDigits SCROLL usdcScroll 6 (Some "USDC") None h =
            Ok (1%nat, h ++ [OToken (mkToken (mkCurrency 6 (Some "USDC") None)
                  SCROLL "0x06EFDBFF2A14A7C8E15944D1F4A48F9F95F663A4")])) as Hnew
    by reflexivity.
  split; [exact Hnew|].
  destruct (Token_new_stores upperCaseDigits SCROLL usdcScroll 6 (Some "USDC")
              None h _ 1%nat Hnew) as (Hfresh & _ & Hstored).
  split; [exact Hfresh | exact Hstored].
Defined.

Lemma Token_new_frame_witness :
  let h := [OToken weth; OToken dai; OCurrency ether] in
  let h' := h ++ [OToken (mkToken (mkCurrency 6 None None) MAINNET
                            wethAddressLower)] in
  Token_new lowerCaseForm MAINNET wethAddress 6 None None h = Ok (3%nat, h') /\
  is_Some (h !! 0%nat) /\ is_Some (h !! 1%nat) /\
  equals h' 0%nat 1%nat = equals h 0%nat 1%nat /\
  sortsBefore h' 0%nat 1%nat = sortsBefore h 0%nat 1%nat /\
  currencyEquals h' 0%nat 1%nat = currencyEquals h 0%nat 1%nat.
Proof.
  intros h h'.
  assert (Token_new lowerCaseForm MAINNET wethAddress 6 None None h
          = Ok (3%nat, h')) as Hnew by reflexivity.
  assert (is_Some (h !! 0%nat)) as H0 by (eexists; reflexivity).
  assert (is_Some (h !! 1%nat)) as H1 by (eexists; reflexivity).
  repeat (split; [assumption|]).
  exact (Token_new_frame lowerCaseForm MAINNET wethAddress 6 None None h h'
           3%nat 0%nat 1%nat Hnew H0 H1).
Defined.

Lemma Token_new_outcome_witness :
  ~ 0 <= 256 <= 255 /\
  Token_new lowerCaseForm MAINNET wethAddress 256 None None [] = Err InvalidDecimals /\
  0 <= 18 <= 255 /\ isAddress wethAddress = true /\
  exists l h', Token_new lowerCaseForm MAINNET wethAddress 18 None None []
               = Ok (l, h').
Proof.
  assert (~ 0 <= 256 <= 255) as Hbad by lia.
  assert (0 <= 18 <= 255) as Hd by lia.
  assert (isAddress wethAddress = true) as Ha by reflexivity.
  split; [exact Hbad|]. split.
  { exact (proj1 (proj2 (Token_new_outcome lowerCaseForm MAINNET wethAddress 256
                           None None [])) Hbad). }
  split; [exact Hd|]. split; [exact Ha|].
  exact (proj2 (proj1 (Token_new_outcome lowerCaseForm MAINNET wethAddress 18
                         None None [])) (conj Hd Ha)).
Defined.

Lemma Token_new_same_address_witness :
  let t := mkToken (mkCurrency 18 (Some "WETH") None) MAINNET wethAddressLower in
  let u := mkToken (mkCurrency 6 None None) MAINNET wethAddressLower in
  Token_new lowerCaseForm MAINNET wethAddress 18 (Some "WETH") None []
    = Ok (0%nat, [OToken t]) /\
  Token_new lowerCaseForm MAINNET wethAddressLower 6 None None [OToken t]
    = Ok (1%nat, [OToken t; OToken u]) /\
  toLowerCase wethAddress = toLowerCase wethAddressLower /\
  0%nat <> 1%nat /\
  sortsBefore [OToken t; OToken u] 0%nat 1%nat = Err IdenticalAddress /\
  sortsBefore [OToken t; OToken u] 1%nat 0%nat = Err IdenticalAddress /\
  equals [OToken t; OToken u] 0%nat 1%nat <> Ok false.
Proof.
  intros t u.
  assert (Token_new lowerCaseForm MAINNET wethAddress 18 (Some "WETH") None []
          = Ok (0%nat, [OToken t])) as H1 by reflexivity.
  assert (Token_new lowerCaseForm MAINNET wethAddressLower 6 None None [OToken t]
          = Ok (1%nat, [OToken t; OToken u])) as H2 by reflexivity.
  assert (toLowerCase wethAddress = toLowerCase wethAddressLower) as Hab
    by reflexivity.
  repeat (split; [assumption|]).
  exact (Token_new_same_address lowerCaseForm MAINNET wethAddress wethAddressLower
           18 6 (Some "WETH") None None None [] [OToken t] [OToken t; OToken u]
           0%nat 1%nat H1 H2 Hab).
Defined.

Lemma sortsBefore_constructed_witness :
  exists h1 h2,
    Token_new upperCaseDigits SCROLL usdcScroll 6 None None [] = Ok (0%nat, h1) /\
    Token_new upperCaseDigits SCROLL usdtScroll 6 None None h1 = Ok (1%nat, h2) /\
    toLowerCase usdcScroll <> toLowerCase usdtScroll /\
    sortsBefore h2 0%nat 1%nat = Ok true /\ sortsBefore h2 1%nat 0%nat = Ok false /\
    equals h2 0%nat 1%nat = Ok false.
Proof.
  eexists _, _.
  split; [reflexivity|]. split; [reflexivity|].
  assert (toLowerCase usdcScroll <> toLowerCase usdtScroll) as Hne
    by (vm_compute; discriminate).
  split; [exact Hne|].
  exact (sortsBefore_constructed upperCaseDigits upperCaseDigits_casing SCROLL
           usdcScroll usdtScroll 6 6 None None None None [] _ _ 0%nat 1%nat
           eq_refl eq_refl Hne).
Defined.

Lemma TOKENS_SCROLL_entries :
  exists reg, TOKENS !! SCROLL = Some reg /\
    ADDRESSES (Tokens reg) !! "USDC" = Some usdcScroll /\
    ADDRESSES (Tokens reg) !! "USDT" = Some usdtScroll.
Proof. eexists. split; [vm_compute; reflexivity|]. split; vm_compute; reflexivity. Qed.

Lemma TOKENS_WETH_agree_witness :
  exists reg, TOKENS !! SCROLL = Some reg /\
    exists a tbl h l t,
      ADDRESSES (Tokens reg) !! "WETH" = Some a /\
      WETH lowerCaseForm [] = Ok (tbl, h) /\
      tbl !! SCROLL = Some l /\ h !! l = Some (OToken t) /\
      validateAndParseAddress lowerCaseForm a = Ok (address t).
Proof.
  destruct TOKENS_SCROLL_entries as (reg & Hreg & _).
  exists reg. split; [exact Hreg|].
  exact (TOKENS_WETH_agree lowerCaseForm [] SCROLL reg Hreg).
Defined.

Lemma TOKENS_addresses_witness :
  exists reg, TOKENS !! SCROLL = Some reg /\
    ADDRESSES (Tokens reg) !! "USDC" = Some usdcScroll /\
    ADDRESSES (Tokens reg) !! "USDT" = Some usdtScroll /\
    "USDC" <> "USDT" /\
    isAddress usdcScroll = true /\
    toLowerCase usdcScroll <> toLowerCase usdtScroll.
Proof.
  destruct TOKENS_SCROLL_entries as (reg & Hreg & H1 & H2).
  exists reg. split; [exact Hreg|].
  assert ("USDC" <> "USDT") as Hne by discriminate.
  repeat (split; [assumption|]).
  destruct (TOKENS_addresses SCROLL reg Hreg) as (Hwf & _ & Hdist & _).
  split; [exact (Hwf _ _ H1) | exact (Hdist _ _ _ _ H1 H2 Hne)].
Defined.

Lemma TOKENS_pair_order_witness :
  exists reg, TOKENS !! SCROLL = Some reg /\
    ADDRESSES (Tokens reg) !! "USDC" = Some usdcScroll /\
    ADDRESSES (Tokens reg) !! "USDT" = Some usdtScroll /\
    "USDC" <> "USDT" /\ 0 <= 6 <= 255 /\
    exists l1 h1 l2 h2,
      Token_new upperCaseDigits SCROLL usdcScroll 6 (Some "USDC") None [] = Ok (l1, h1) /\
      Token_new upperCaseDigits SCROLL usdtScroll 6 (Some "USDT") None h1 = Ok (l2, h2) /\
      equals h2 l1 l2 = Ok false /\
      ((sortsBefore h2 l1 l2 = Ok true /\ sortsBefore h2 l2 l1 = Ok false) \/
       (sortsBefore h2 l1 l2 = Ok false /\ sortsBefore h2 l2 l1 = Ok true)).
Proof.
  destruct TOKENS_SCROLL_entries as (reg & Hreg & H1 & H2).
  exists reg. split; [exact Hreg|].
  assert ("USDC" <> "USDT") as Hne by discriminate.
  assert (0 <= 6 <= 255) as Hd by lia.
  repeat (split; [assumption|]).
  exact (TOKENS_pair_order upperCaseDigits upperCaseDigits_casing SCROLL reg
           "USDC" "USDT" usdcScroll usdtScroll 6 6 (Some "USDC") None
           (Some "USDT") None [] Hreg H1 H2 Hne Hd Hd).
Defined.
